(** * The MCP command-line client: tool-calling orchestration

    A shallow embedding of [src/mcp-client.ts]: the schema adapter
    [openAiToolAdapter], the methods [connectToServer], [processQuery],
    [callTools] and [chatLoop] of class [MCPClient], and theorems about
    them.

    The chat-completion service, the MCP client library, [readline],
    [JSON.parse] and [JSON.stringify] are not part of the repository: they
    are the fields of a [Runtime] record over which every definition is
    parametric.  Asynchronous code is sequential here (every promise is
    awaited at once, except [mcp.connect], whose result is never read), so an
    [await] is a plain monadic bind. *)

From stdpp Require Import base strings list pretty.
From Stdlib Require Import ZArith Lia Ascii.

Open Scope string_scope.
Open Scope list_scope.
Open Scope Z_scope.

Set Warnings "-register-all".

(** ** JavaScript values that cross the client *)

(** A JSON value.  Objects are association lists in insertion order, which
    is the order [JSON.stringify] prints them in.  Numbers are the integers:
    no definition below computes with a number, they are only carried and
    tested for truthiness. *)
Inductive JSON : Type :=
| JNull
| JBool (b : bool)
| JNum (z : Z)
| JStr (s : string)
| JArr (items : list JSON)
| JObj (fields : list (string * JSON)).

(** What the client can throw. *)
Inductive Error : Type :=
| SyntaxError (text : string)   (* JSON.parse on [text] *)
| TypeError (what : string)     (* reading a property of null or undefined *)
| APIError (msg : string)       (* chat.completions.create rejected *)
| McpError (msg : string)       (* listTools or callTool rejected *)
| PlainError (msg : string).    (* throw new Error(msg) *)

(** The line feed of ["\n"]. *)
Definition LF : string := String (ascii_of_nat 10) EmptyString.

(** [v.key] for [v : any] read from JSON: [undefined] is [None]; reading
    from [null] throws.  Used for the keys [properties] and [required], which
    no primitive and no array has. *)
Fixpoint lookup_field (key : string) (fields : list (string * JSON)) : option JSON :=
  match fields with
  | [] => None
  | (k, v) :: rest => if String.eqb k key then Some v else lookup_field key rest
  end.

Definition get_prop (v : JSON) (key : string) : Error + option JSON :=
  match v with
  | JNull => inl (TypeError ("Cannot read properties of null (reading '" +:+ key +:+ "')"))
  | JObj fields => inr (lookup_field key fields)
  | _ => inr None
  end.

(** ToBoolean on a JSON value. *)
Definition truthy (v : JSON) : bool :=
  match v with
  | JNull => false
  | JBool b => b
  | JNum z => negb (z =? 0)
  | JStr s => negb (String.eqb s "")
  | JArr _ | JObj _ => true
  end.

(** [s || d] for [s : string | undefined | null]. *)
Definition str_or (s : option string) (d : string) : string :=
  match s with
  | Some x => if String.eqb x "" then d else x
  | None => d
  end.

(** [v || d] for an optional JSON value. *)
Definition json_or (v : option JSON) (d : JSON) : JSON :=
  match v with
  | Some x => if truthy x then x else d
  | None => d
  end.

(** ** The schema adapter (lines 16-33) *)

(** The argument of [openAiToolAdapter]. *)
Record ToolDescriptor : Type := mkToolDescriptor {
  name : string;
  description : option string;
  input_schema : JSON;            (* declared [any]; absent reads as null *)
}.

Record FunctionParameters : Type := mkFunctionParameters {
  param_type : string;
  properties : JSON;
  required : JSON;
}.

Record FunctionDefinition : Type := mkFunctionDefinition {
  fn_name : string;
  fn_description : string;
  parameters : FunctionParameters;
}.

Record OpenAiTool : Type := mkOpenAiTool {
  tool_type : string;
  tool_function : FunctionDefinition;
}.

Definition openAiToolAdapter (tool : ToolDescriptor) : Error + OpenAiTool :=
  match get_prop (input_schema tool) "properties" with
  | inl e => inl e
  | inr props =>
    match get_prop (input_schema tool) "required" with
    | inl e => inl e
    | inr req =>
      inr {| tool_type := "function";
             tool_function := {|
               fn_name := name tool;
               fn_description := str_or (description tool) ("Tool: " +:+ name tool);
               parameters := {|
                 param_type := "object";
                 properties := json_or props (JObj []);
                 required := json_or req (JArr []) |} |} |}
    end
  end.

(** ** Chat messages and model responses *)

(** A tool-call request of the model: [toolCall.id],
    [toolCall.function.name], [toolCall.function.arguments]. *)
Record ToolCall : Type := mkToolCall {
  call_id : string;
  call_name : string;
  arguments : string;
}.

(** The objects pushed on [messages], tagged by their [role]. *)
Inductive Message : Type :=
| UserMessage (content : string)
| AssistantMessage (content : string) (tool_calls : list ToolCall)
| ToolMessage (content : string) (tool_call_id : string).

(** [choice.message]: [content] is a string or null, [tool_calls] an array
    or undefined. *)
Record ChatMessage : Type := mkChatMessage {
  content : option string;
  tool_calls : option (list ToolCall);
}.

Record Choice : Type := mkChoice { message : ChatMessage }.

Record ChatCompletion : Type := mkChatCompletion { choices : list Choice }.

(** The argument of [chat.completions.create]; [req_tools] is the [tools]
    field, [None] when it is [undefined]. *)
Record CompletionRequest : Type := mkCompletionRequest {
  model : string;
  max_tokens : Z;
  messages : list Message;
  req_tools : option (list OpenAiTool);
}.

(** An entry of [listTools().tools]. *)
Record McpTool : Type := mkMcpTool {
  mcp_name : string;
  mcp_description : option string;
  inputSchema : JSON;
}.

(** What [mcp.callTool] resolves to; only [content] is read. *)
Record CallToolResult : Type := mkCallToolResult { result_content : JSON }.

(** The objects [callTools] collects. *)
Record ToolInvocationResult : Type := mkToolInvocationResult {
  toolCallId : string;
  result : CallToolResult;
}.

Record StdioClientTransport : Type := mkTransport {
  command : string;
  args : list string;
}.

(** ** The session object and the machine state *)

(** The fields of [MCPClient] that the class assigns; [mcp] and [openai]
    are handles on services whose state is part of the outside world. *)
Record MCPClient : Type := mkMCPClient {
  tools : list OpenAiTool;
  transport : option StdioClientTransport;
}.

(** Address of a string array: [finalText] is created by [processQuery] and
    filled by [callTools] through the same reference. *)
Definition loc : Type := nat.

Inductive LogArg : Type :=
| LStr (s : string)
| LNames (names : list string)
| LErr (e : Error).

(** What the client does, in program order.  A call of an outside service is
    recorded with its answer. *)
Inductive Event : Type :=
| EvCreate (req : CompletionRequest) (res : string + ChatCompletion)
| EvConnect (t : StdioClientTransport)
| EvListTools (res : string + list McpTool)
| EvCallTool (tool : string) (args : JSON) (res : string + CallToolResult)
| EvConsole (line : list LogArg)
| EvPush (array : loc) (text : string)
| EvQuestion (prompt answer : string)
| EvRlClose.

(** The collaborators outside the repository, over a world of type [W]. *)
Record Runtime (W : Type) : Type := mkRuntime {
  JSON_parse : string -> option JSON;
  JSON_stringify : JSON -> string;
  openai_create : CompletionRequest -> W -> (string + ChatCompletion) * W;
  mcp_connect : StdioClientTransport -> W -> W;
  mcp_listTools : W -> (string + list McpTool) * W;
  mcp_callTool : string -> JSON -> W -> (string + CallToolResult) * W;
  process_platform : string;
  process_execPath : string;
}.

Arguments JSON_parse {W} _ _.
Arguments JSON_stringify {W} _ _.
Arguments openai_create {W} _ _ _.
Arguments mcp_connect {W} _ _ _.
Arguments mcp_listTools {W} _ _.
Arguments mcp_callTool {W} _ _ _ _.
Arguments process_platform {W} _.
Arguments process_execPath {W} _.

Record State (W : Type) : Type := mkState {
  this : MCPClient;
  heap : list (list string);
  world : W;
  history : list Event;
}.

Arguments mkState {W} _ _ _ _.
Arguments this {W} _.
Arguments heap {W} _.
Arguments world {W} _.
Arguments history {W} _.

(** How a computation ends: a value, an exception, or a promise that is
    never settled. *)
Inductive Outcome (A : Type) : Type :=
| Return (a : A)
| Throw (e : Error)
| Pending.

Arguments Return {A} _.
Arguments Throw {A} _.
Arguments Pending {A}.

(** ** The monad of the client: state and exceptions *)

Section Client.

Context {W : Type} (rt : Runtime W).

Definition M (A : Type) : Type := State W -> Outcome A * State W.

#[local] Instance M_ret : MRet M := fun A a s => (Return a, s).

#[local] Instance M_bind : MBind M := fun A B f m s =>
  match m s with
  | (Return a, s') => f a s'
  | (Throw e, s') => (Throw e, s')
  | (Pending, s') => (Pending, s')
  end.

Definition throw {A : Type} (e : Error) : M A := fun s => (Throw e, s).

Definition pending {A : Type} : M A := fun s => (Pending, s).

(** [try { body } catch (e) { handler }] *)
Definition try_catch {A : Type} (body : M A) (handler : Error -> M A) : M A := fun s =>
  match body s with
  | (Throw e, s') => handler e s'
  | r => r
  end.

(** [try { body } finally { final }]: [final] runs when [body] returns or
    throws and its own exception wins; a body that never settles never
    reaches it. *)
Definition try_finally {A : Type} (body : M A) (final : M unit) : M A := fun s =>
  match body s with
  | (Pending, s') => (Pending, s')
  | (r, s') =>
    match final s' with
    | (Return _, s'') => (r, s'')
    | (Throw e, s'') => (Throw e, s'')
    | (Pending, s'') => (Pending, s'')
    end
  end.

Definition lift {A : Type} (r : Error + A) : M A :=
  match r with
  | inl e => throw e
  | inr a => mret a
  end.

Definition emit (e : Event) : M unit := fun s =>
  (Return tt, mkState (this s) (heap s) (world s) (history s ++ [e])).

Definition console_log (line : list LogArg) : M unit := emit (EvConsole line).

(** [this.tools], [this.tools = ts], [this.transport = t] *)
Definition get_tools : M (list OpenAiTool) := fun s => (Return (tools (this s)), s).

Definition set_tools (ts : list OpenAiTool) : M unit := fun s =>
  (Return tt, mkState (mkMCPClient ts (transport (this s))) (heap s) (world s) (history s)).

Definition set_transport (t : option StdioClientTransport) : M unit := fun s =>
  (Return tt, mkState (mkMCPClient (tools (this s)) t) (heap s) (world s) (history s)).

(** [[]], [a.push(text)] and reading [a] for a string array [a] *)
Definition new_array : M loc := fun s =>
  (Return (length (heap s)), mkState (this s) (heap s ++ [[]]) (world s) (history s)).

Definition push (a : loc) (text : string) : M unit := fun s =>
  (Return tt,
   mkState (this s) (alter (fun items => items ++ [text]) a (heap s)) (world s)
           (history s ++ [EvPush a text])).

Definition read (a : loc) : M (list string) := fun s =>
  (Return (default [] (heap s !! a)), s).

(** [await this.openai.chat.completions.create(req)] *)
Definition create (req : CompletionRequest) : M ChatCompletion := fun s =>
  let (res, w) := openai_create rt req (world s) in
  let s' := mkState (this s) (heap s) w (history s ++ [EvCreate req res]) in
  match res with
  | inl msg => (Throw (APIError msg), s')
  | inr response => (Return response, s')
  end.

(** [this.mcp.connect(t)], not awaited: the promise is dropped, so that
    [connectToServer] goes on whatever becomes of it. *)
Definition connect (t : StdioClientTransport) : M unit := fun s =>
  (Return tt,
   mkState (this s) (heap s) (mcp_connect rt t (world s)) (history s ++ [EvConnect t])).

(** [await this.mcp.listTools()] *)
Definition listTools : M (list McpTool) := fun s =>
  let (res, w) := mcp_listTools rt (world s) in
  let s' := mkState (this s) (heap s) w (history s ++ [EvListTools res]) in
  match res with
  | inl msg => (Throw (McpError msg), s')
  | inr ts => (Return ts, s')
  end.

(** [await this.mcp.callTool({ name, arguments })] *)
Definition callTool (tool : string) (args : JSON) : M CallToolResult := fun s =>
  let (res, w) := mcp_callTool rt tool args (world s) in
  let s' := mkState (this s) (heap s) w (history s ++ [EvCallTool tool args res]) in
  match res with
  | inl msg => (Throw (McpError msg), s')
  | inr r => (Return r, s')
  end.

(** [JSON.parse(text)] *)
Definition parse_arguments (text : string) : M JSON :=
  match JSON_parse rt text with
  | Some v => mret v
  | None => throw (SyntaxError text)
  end.

(** ** [callTools] (lines 157-183) *)

Definition call_line (toolName : string) (args : JSON) : string :=
  "Calling tool " +:+ toolName +:+ " with args " +:+ JSON_stringify rt args.

(** The string pushed on [finalText] at lines 174-176. *)
Definition trace_line (toolName : string) (args : JSON) : string :=
  "[" +:+ call_line toolName args +:+ "]".

(** The [for ... of] loop; [toolResults] is the array built so far. *)
Fixpoint callTools_loop (toolCalls : list ToolCall) (finalText : loc)
    (toolResults : list ToolInvocationResult) : M (list ToolInvocationResult) :=
  match toolCalls with
  | [] => mret toolResults
  | toolCall :: rest =>
    let toolName := call_name toolCall in
    args ← parse_arguments (arguments toolCall);
    console_log [LStr (call_line toolName args)];;
    toolResult ← callTool toolName args;
    push finalText (trace_line toolName args);;
    callTools_loop rest finalText
      (toolResults ++ [mkToolInvocationResult (call_id toolCall) toolResult])
  end.

Definition callTools (toolCalls : list ToolCall) (finalText : loc)
    : M (list ToolInvocationResult) :=
  callTools_loop toolCalls finalText [].

(** ** [processQuery] (lines 93-155) *)

(** [this.tools.length > 0 ? this.tools : undefined] *)
Definition tools_field (ts : list OpenAiTool) : option (list OpenAiTool) :=
  if (0 <? Z.of_nat (length ts)) then Some ts else None.

(** [response.choices[0].message]: reading [message] of [undefined] throws. *)
Definition no_choice : Error :=
  TypeError "Cannot read properties of undefined (reading 'message')".

Definition first_message (response : ChatCompletion) : M ChatMessage :=
  match choices response with
  | choice :: _ => mret (message choice)
  | [] => throw no_choice
  end.

(** [if (c) finalText.push(c)] for [c : string | null] *)
Definition push_content (finalText : loc) (c : option string) : M unit :=
  match c with
  | Some text => if String.eqb text "" then mret tt else push finalText text
  | None => mret tt
  end.

Definition tool_message (r : ToolInvocationResult) : Message :=
  ToolMessage (JSON_stringify rt (result_content (result r))) (toolCallId r).

Definition processQuery (query : string) : M string :=
  let messages := [UserMessage query] in
  ts ← get_tools;
  response ← create (mkCompletionRequest "gpt-4o" 1000 messages (tools_field ts));
  finalText ← new_array;
  msg ← first_message response;
  push_content finalText (content msg);;
  match tool_calls msg with
  | Some toolCalls =>
    toolResults ← callTools toolCalls finalText;
    let messages := messages ++ [AssistantMessage (str_or (content msg) "") toolCalls] in
    let messages := messages ++ map tool_message toolResults in
    ts ← get_tools;
    response ← create (mkCompletionRequest "gpt-4o" 1000 messages (tools_field ts));
    finalMsg ← first_message response;
    push_content finalText (content finalMsg)
  | None => mret tt
  end;;
  lines ← read finalText;
  mret (String.concat LF lines).

(** ** [connectToServer] (lines 49-91) *)

(** [s.endsWith(suffix)] *)
Definition endsWith (s suffix : string) : bool :=
  let n := String.length s in
  let m := String.length suffix in
  (m <=? n)%nat && String.eqb (String.substring (n - m)%nat m s) suffix.

(** [toolsResult.tools.map(tool => openAiToolAdapter({...}))]: the first
    call that throws ends the map. *)
Fixpoint adapt_all (ts : list McpTool) : Error + list OpenAiTool :=
  match ts with
  | [] => inr []
  | tool :: rest =>
    match openAiToolAdapter
            (mkToolDescriptor (mcp_name tool) (mcp_description tool) (inputSchema tool)) with
    | inl e => inl e
    | inr spec =>
      match adapt_all rest with
      | inl e => inl e
      | inr specs => inr (spec :: specs)
      end
    end
  end.

Definition connectToServer (serverScriptPath : string) : M unit :=
  try_catch
    (let isJs := endsWith serverScriptPath ".js" in
     let isPy := endsWith serverScriptPath ".py" in
     (if negb isJs && negb isPy
      then throw (PlainError "Server script must be a .js or .py file")
      else mret tt);;
     let command :=
       if isPy
       then (if String.eqb (process_platform rt) "win32" then "python" else "python3")
       else process_execPath rt in
     let t := mkTransport command [serverScriptPath] in
     set_transport (Some t);;
     connect t;;
     toolsResult ← listTools;
     specs ← lift (adapt_all toolsResult);
     set_tools specs;;
     console_log [LStr "Connected to server with tools:";
                  LNames (map (fun t => fn_name (tool_function t)) specs)])
    (fun e =>
       console_log [LStr "Failed to connect to MCP server: "; LErr e];;
       throw e).

(** ** [chatLoop] (lines 197-219) *)

Definition prompt : string := LF +:+ "Query (or 'exit' to quit): ".

(** The [while (true)] loop over the lines the user types, in order.  When
    they are used up the pending [rl.question] is never answered. *)
Fixpoint chatLoop_while (lines : list string) : M unit :=
  match lines with
  | [] => pending
  | query :: rest =>
    emit (EvQuestion prompt query);;
    if String.eqb query "exit" then mret tt
    else
      response ← processQuery query;
      console_log [LStr (LF +:+ "Response:")];;
      console_log [LStr response];;
      chatLoop_while rest
  end.

Definition chatLoop (lines : list string) : M unit :=
  try_finally (chatLoop_while lines) (emit EvRlClose).

End Client.

Arguments M W A : clear implicits.

(** ** [JSON.stringify] and [JSON.parse] on the [JSON] type

    ECMAScript's two functions, restricted to what [JSON] holds: a number
    literal with a fraction or an exponent and a [\u] escape of a surrogate
    are outside it, and [parse] answers [None] for them. *)

Module Json.

Definition DQ : string := String (ascii_of_nat 34) EmptyString.
Definition BS : string := String (ascii_of_nat 92) EmptyString.

Definition hex_digit (n : nat) : ascii :=
  if (n <? 10)%nat then ascii_of_nat (48 + n) else ascii_of_nat (87 + n).

(** QuoteJSONString, one code unit at a time. *)
Definition escape_char (c : ascii) : string :=
  let n := nat_of_ascii c in
  if (n =? 34)%nat then BS +:+ DQ
  else if (n =? 92)%nat then BS +:+ BS
  else if (n =? 8)%nat then BS +:+ "b"
  else if (n =? 12)%nat then BS +:+ "f"
  else if (n =? 10)%nat then BS +:+ "n"
  else if (n =? 13)%nat then BS +:+ "r"
  else if (n =? 9)%nat then BS +:+ "t"
  else if (n <? 32)%nat
       then BS +:+ "u00" +:+ String (hex_digit (n / 16)) (String (hex_digit (n mod 16)) "")
       else String c "".

Fixpoint escape (s : string) : string :=
  match s with
  | EmptyString => ""
  | String c rest => escape_char c +:+ escape rest
  end.

Definition quote (s : string) : string := DQ +:+ escape s +:+ DQ.

Fixpoint stringify (v : JSON) : string :=
  match v with
  | JNull => "null"
  | JBool true => "true"
  | JBool false => "false"
  | JNum z => pretty z
  | JStr s => quote s
  | JArr items => "[" +:+ String.concat "," (map stringify items) +:+ "]"
  | JObj fields =>
    "{" +:+ String.concat ","
              (map (fun kv => quote (fst kv) +:+ ":" +:+ stringify (snd kv)) fields)
        +:+ "}"
  end.

(** *** Parsing *)

Definition is_ws (c : ascii) : bool :=
  let n := nat_of_ascii c in
  (n =? 32)%nat || (n =? 9)%nat || (n =? 10)%nat || (n =? 13)%nat.

Fixpoint skip_ws (cs : list ascii) : list ascii :=
  match cs with
  | c :: rest => if is_ws c then skip_ws rest else cs
  | [] => []
  end.

Definition digit_of (c : ascii) : option Z :=
  let n := nat_of_ascii c in
  if (48 <=? n)%nat && (n <=? 57)%nat then Some (Z.of_nat (n - 48)) else None.

Definition hex_of (c : ascii) : option N :=
  let n := N_of_ascii c in
  if (48 <=? n)%N && (n <=? 57)%N then Some (n - 48)%N
  else if (97 <=? n)%N && (n <=? 102)%N then Some (n - 87)%N
  else if (65 <=? n)%N && (n <=? 70)%N then Some (n - 55)%N
  else None.

(** The digits at the head of [cs], accumulated on [acc]. *)
Fixpoint digits (cs : list ascii) (acc : Z) : Z * list ascii :=
  match cs with
  | c :: rest =>
    match digit_of c with
    | Some d => digits rest (10 * acc + d)
    | None => (acc, cs)
    end
  | [] => (acc, [])
  end.

(** After an integer literal: a fraction or an exponent leaves the fragment. *)
Definition integer_end (cs : list ascii) : bool :=
  match cs with
  | c :: _ => negb (Ascii.eqb c "."%char || Ascii.eqb c "e"%char || Ascii.eqb c "E"%char)
  | [] => true
  end.

(** An optional minus sign, then 0 or a digit 1-9 followed by digits. *)
Definition number (cs : list ascii) : option (Z * list ascii) :=
  let (neg, body) :=
    match cs with
    | c :: rest => if Ascii.eqb c "-"%char then (true, rest) else (false, cs)
    | [] => (false, [])
    end in
  match body with
  | c :: rest =>
    match digit_of c with
    | Some 0 => if integer_end rest then Some (0, rest) else None
    | Some d =>
      let (n, rest') := digits rest d in
      if integer_end rest' then Some (if neg : bool then - n else n, rest') else None
    | None => None
    end
  | [] => None
  end.

(** UTF-8 of a code point of the basic plane that is no surrogate. *)
Definition utf8 (n : N) : option (list ascii) :=
  if (n <? 128)%N then Some [ascii_of_N n]
  else if (n <? 2048)%N
  then Some [ascii_of_N (192 + n / 64); ascii_of_N (128 + n mod 64)]
  else if (55296 <=? n)%N && (n <=? 57343)%N then None
  else Some [ascii_of_N (224 + n / 4096); ascii_of_N (128 + (n / 64) mod 64);
             ascii_of_N (128 + n mod 64)].

Definition simple_escape (c : ascii) : option ascii :=
  let n := nat_of_ascii c in
  if (n =? 34)%nat || (n =? 92)%nat || (n =? 47)%nat then Some c
  else if Ascii.eqb c "b"%char then Some (ascii_of_nat 8)
  else if Ascii.eqb c "f"%char then Some (ascii_of_nat 12)
  else if Ascii.eqb c "n"%char then Some (ascii_of_nat 10)
  else if Ascii.eqb c "r"%char then Some (ascii_of_nat 13)
  else if Ascii.eqb c "t"%char then Some (ascii_of_nat 9)
  else None.

(** The characters of a string literal after its opening quote, up to and
    including the closing one. *)
Fixpoint string_body (cs : list ascii) (acc : list ascii) : option (string * list ascii) :=
  match cs with
  | [] => None
  | c :: rest =>
    let n := nat_of_ascii c in
    if (n =? 34)%nat then Some (String.string_of_list_ascii acc, rest)
    else if (n <? 32)%nat then None
    else if (n =? 92)%nat then
      match rest with
      | e :: rest' =>
        if Ascii.eqb e "u"%char then
          match rest' with
          | h1 :: h2 :: h3 :: h4 :: rest'' =>
            match hex_of h1, hex_of h2, hex_of h3, hex_of h4 with
            | Some a, Some b, Some c', Some d =>
              match utf8 (((a * 16 + b) * 16 + c') * 16 + d)%N with
              | Some bytes => string_body rest'' (acc ++ bytes)
              | None => None
              end
            | _, _, _, _ => None
            end
          | _ => None
          end
        else
          match simple_escape e with
          | Some x => string_body rest' (acc ++ [x])
          | None => None
          end
      | [] => None
      end
    else string_body rest (acc ++ [c])
  end.

(** A property key that is an array index: the decimal numeral of an integer
    below 2^32 - 1.  Such keys come first in an object, in ascending order. *)
Definition array_index (k : string) : option Z :=
  match number (String.list_ascii_of_string k) with
  | Some (n, []) =>
    if (0 <=? n) && (n <? 4294967295) && String.eqb (pretty n) k then Some n else None
  | _ => None
  end.

Definition key_before (k k' : string) : bool :=
  match array_index k, array_index k' with
  | Some i, Some j => i <? j
  | Some _, None => true
  | None, _ => false
  end.

(** [obj[k] = v] on the properties parsed so far: a repeated key keeps its
    place and takes the new value. *)
Fixpoint set_field (k : string) (v : JSON) (fields : list (string * JSON))
    : list (string * JSON) :=
  match fields with
  | [] => [(k, v)]
  | (k', v') :: rest =>
    if String.eqb k' k then (k, v) :: rest
    else if key_before k k' then (k, v) :: (k', v') :: rest
    else (k', v') :: set_field k v rest
  end.

Definition head_is (c : ascii) (cs : list ascii) : option (list ascii) :=
  match cs with
  | x :: rest => if Ascii.eqb x c then Some rest else None
  | [] => None
  end.

Fixpoint strip (word : list ascii) (cs : list ascii) : option (list ascii) :=
  match word with
  | [] => Some cs
  | w :: word' =>
    match head_is w cs with
    | Some rest => strip word' rest
    | None => None
    end
  end.

(** A value, the elements of an array after its bracket, the members of an
    object after its brace.  Every call consumes a character, so [fuel] above
    the length of the input is never used up. *)
Fixpoint value (fuel : nat) (cs : list ascii) : option (JSON * list ascii) :=
  match fuel with
  | O => None
  | S fuel' =>
    match skip_ws cs with
    | [] => None
    | c :: rest =>
      if Ascii.eqb c "n"%char then
        match strip (String.list_ascii_of_string "ull") rest with
        | Some r => Some (JNull, r) | None => None end
      else if Ascii.eqb c "t"%char then
        match strip (String.list_ascii_of_string "rue") rest with
        | Some r => Some (JBool true, r) | None => None end
      else if Ascii.eqb c "f"%char then
        match strip (String.list_ascii_of_string "alse") rest with
        | Some r => Some (JBool false, r) | None => None end
      else if (nat_of_ascii c =? 34)%nat then
        match string_body rest [] with
        | Some (s, r) => Some (JStr s, r) | None => None end
      else if Ascii.eqb c "["%char then
        match head_is "]"%char (skip_ws rest) with
        | Some r => Some (JArr [], r)
        | None => elements fuel' rest []
        end
      else if Ascii.eqb c "{"%char then
        match head_is "}"%char (skip_ws rest) with
        | Some r => Some (JObj [], r)
        | None => members fuel' rest []
        end
      else
        match number (c :: rest) with
        | Some (n, r) => Some (JNum n, r) | None => None end
    end
  end
with elements (fuel : nat) (cs : list ascii) (acc : list JSON)
    : option (JSON * list ascii) :=
  match fuel with
  | O => None
  | S fuel' =>
    match value fuel' cs with
    | Some (v, rest) =>
      match skip_ws rest with
      | c :: r =>
        if Ascii.eqb c ","%char then elements fuel' r (acc ++ [v])
        else if Ascii.eqb c "]"%char then Some (JArr (acc ++ [v]), r)
        else None
      | [] => None
      end
    | None => None
    end
  end
with members (fuel : nat) (cs : list ascii) (acc : list (string * JSON))
    : option (JSON * list ascii) :=
  match fuel with
  | O => None
  | S fuel' =>
    match skip_ws cs with
    | q :: rest =>
      if (nat_of_ascii q =? 34)%nat then
        match string_body rest [] with
        | Some (k, rest') =>
          match head_is ":"%char (skip_ws rest') with
          | Some rest'' =>
            match value fuel' rest'' with
            | Some (v, rest3) =>
              match skip_ws rest3 with
              | c :: r =>
                if Ascii.eqb c ","%char then members fuel' r (set_field k v acc)
                else if Ascii.eqb c "}"%char then Some (JObj (set_field k v acc), r)
                else None
              | [] => None
              end
            | None => None
            end
          | None => None
          end
        | None => None
        end
      else None
    | [] => None
    end
  end.

Definition parse (text : string) : option JSON :=
  let cs := String.list_ascii_of_string text in
  match value (S (length cs)) cs with
  | Some (v, rest) =>
    match skip_ws rest with
    | [] => Some v
    | _ :: _ => None
    end
  | None => None
  end.

End Json.

(** ** A scripted outside world

    The model and the tool server answer from a script: each call takes the
    next answer of its list.  Used to run the client on concrete sessions. *)

Module Scripted.

Record Script : Type := mkScript {
  completions : list (string + ChatCompletion);
  discovery : string + list McpTool;
  tool_answers : list (string + CallToolResult);
}.

Definition next_completion (w : Script) : (string + ChatCompletion) * Script :=
  match completions w with
  | r :: rest => (r, mkScript rest (discovery w) (tool_answers w))
  | [] => (inl "no completion left", w)
  end.

Definition next_tool_answer (w : Script) : (string + CallToolResult) * Script :=
  match tool_answers w with
  | r :: rest => (r, mkScript (completions w) (discovery w) rest)
  | [] => (inl "no tool answer left", w)
  end.

Definition runtime : Runtime Script := {|
  JSON_parse := Json.parse;
  JSON_stringify := Json.stringify;
  openai_create := fun _ w => next_completion w;
  mcp_connect := fun _ w => w;
  mcp_listTools := fun w => (discovery w, w);
  mcp_callTool := fun _ _ w => next_tool_answer w;
  process_platform := "linux";
  process_execPath := "/usr/bin/node";
|}.

(** A new [MCPClient] in front of the script [w]. *)
Definition start (w : Script) : State Script :=
  mkState (mkMCPClient [] None) [] w [].

(** The model's answer with text [c] and tool calls [tcs]. *)
Definition answer (c : option string) (tcs : option (list ToolCall))
    : string + ChatCompletion :=
  inr (mkChatCompletion [mkChoice (mkChatMessage c tcs)]).

(** The schema of a tool [add(a, b)] and the server that offers it. *)
Definition number_schema : JSON := JObj [("type", JStr "number")].

Definition add_tool : McpTool :=
  mkMcpTool "add" (Some "Add two numbers")
    (JObj [("type", JStr "object");
           ("properties", JObj [("a", number_schema); ("b", number_schema)]);
           ("required", JArr [JStr "a"; JStr "b"])]).

(** The text [{"a": 2, "b": 3}]. *)
Definition add_arguments : string :=
  "{" +:+ Json.DQ +:+ "a" +:+ Json.DQ +:+ ": 2, " +:+ Json.DQ +:+ "b" +:+ Json.DQ +:+ ": 3}".

Definition add_call : ToolCall := mkToolCall "call_1" "add" add_arguments.

(** The tool result [5], as a text block. *)
Definition five : CallToolResult :=
  mkCallToolResult (JArr [JObj [("type", JStr "text"); ("text", JStr "5")]]).

(** The session of the sum: the model asks for [add], then answers. *)
Definition sum_script : Script :=
  mkScript [answer None (Some [add_call]); answer (Some "The sum is 5") None]
           (inr [add_tool])
           [inr five].

(** The line [[Calling tool add with args {"a":2,"b":3}]]. *)
Definition add_trace : string :=
  "[Calling tool add with args {" +:+ Json.DQ +:+ "a" +:+ Json.DQ +:+ ":2,"
    +:+ Json.DQ +:+ "b" +:+ Json.DQ +:+ ":3}]".

(** A session without tools: the model answers "hi". *)
Definition greeting_script : Script :=
  mkScript [answer (Some "hi") None] (inr []) [].

(** The model sends a tool-call list that is present and empty. *)
Definition empty_batch_script : Script :=
  mkScript [answer (Some "hi") (Some []); answer (Some "again") None] (inr []) [].

(** A request whose payload is no JSON text. *)
Definition bad_call : ToolCall := mkToolCall "call_2" "add" "{a:2".

Definition bad_arguments_script : Script :=
  mkScript [answer None (Some [bad_call]); answer (Some "hello") None]
           (inr [add_tool])
           [inr five].

(** The same request after a good one and before another. *)
Definition late_bad_arguments_script : Script :=
  mkScript [answer None (Some [add_call; bad_call; add_call]); answer (Some "hello") None]
           (inr [add_tool])
           [inr five; inr five].

(** The server fails on the tool call. *)
Definition failing_tool_script : Script :=
  mkScript [answer None (Some [add_call]); answer (Some "hello") None]
           (inr [add_tool])
           [inl "tool failed"].

(** The client once [connectToServer] has run against the script [w]. *)
Definition connected (w : Script) : State Script :=
  snd (connectToServer runtime "server.py" (start w)).

End Scripted.

(** ** Reading a run *)

(** The requests sent to the Completion Client, with and without the
    answer, and the tools invoked through the Transport Adapter, in order. *)
Definition exchanges (h : list Event)
    : list (CompletionRequest * (string + ChatCompletion)) :=
  flat_map (fun ev => match ev with EvCreate req res => [(req, res)] | _ => [] end) h.

Definition requests (h : list Event) : list CompletionRequest :=
  map fst (exchanges h).

Definition invocations (h : list Event) : list (string * JSON) :=
  flat_map (fun ev => match ev with EvCallTool tool a _ => [(tool, a)] | _ => [] end) h.

(** The tool lists that capability discovery answered, and the lines read
    at the prompt. *)
Definition discoveries (h : list Event) : list (string + list McpTool) :=
  flat_map (fun ev => match ev with EvListTools res => [res] | _ => [] end) h.

Definition questions (h : list Event) : list string :=
  flat_map (fun ev => match ev with EvQuestion _ answer => [answer] | _ => [] end) h.

(** The events of a run from [s] to [s']. *)
Definition since {W : Type} (s s' : State W) : list Event :=
  drop (length (history s)) (history s').

(** The content of a model message when there is any: what [push_content]
    appends. *)
Definition text_of (c : option string) : list string :=
  match c with
  | Some text => if String.eqb text "" then [] else [text]
  | None => []
  end.

(** [items.push(...lines)] at address [a] *)
Definition pushed (a : loc) (lines : list string) (h : list (list string))
    : list (list string) :=
  alter (fun items => items ++ lines) a h.

(** How the tool phase of a batch ends. *)
Inductive Stop : Type :=
| Completed
| BadArguments (toolCall : ToolCall)
| ToolFailed (toolCall : ToolCall) (args : JSON) (msg : string).

(** A tool call carried out: the request, its parsed arguments, the result. *)
Definition Served : Type := ToolCall * JSON * CallToolResult.

Definition served_call (d : Served) : ToolCall := fst (fst d).
Definition served_args (d : Served) : JSON := snd (fst d).
Definition served_result (d : Served) : CallToolResult := snd d.

Section Serving.

Context {W : Type} (rt : Runtime W).

(** The tool phase seen from the outside world [w]: the requests carried out
    one after the other until the batch is done, a payload does not parse or
    the server fails. *)
Fixpoint serve (toolCalls : list ToolCall) (w : W) : list Served * Stop * W :=
  match toolCalls with
  | [] => ([], Completed, w)
  | toolCall :: rest =>
    match JSON_parse rt (arguments toolCall) with
    | None => ([], BadArguments toolCall, w)
    | Some a =>
      match mcp_callTool rt (call_name toolCall) a w with
      | (inl msg, w') => ([], ToolFailed toolCall a msg, w')
      | (inr r, w') =>
        let '(done, stop, w'') := serve rest w' in
        ((toolCall, a, r) :: done, stop, w'')
      end
    end
  end.

(** What [callTools] leaves in the history for a call carried out and for
    the call the batch stopped at. *)
Definition served_events (finalText : loc) (d : Served) : list Event :=
  [EvConsole [LStr (call_line rt (call_name (served_call d)) (served_args d))];
   EvCallTool (call_name (served_call d)) (served_args d) (inr (served_result d));
   EvPush finalText (trace_line rt (call_name (served_call d)) (served_args d))].

Definition stop_events (stop : Stop) : list Event :=
  match stop with
  | ToolFailed toolCall a msg =>
    [EvConsole [LStr (call_line rt (call_name toolCall) a)];
     EvCallTool (call_name toolCall) a (inl msg)]
  | _ => []
  end.

Definition stop_outcome {A : Type} (stop : Stop) (a : A) : Outcome A :=
  match stop with
  | Completed => Return a
  | BadArguments toolCall => Throw (SyntaxError (arguments toolCall))
  | ToolFailed _ _ msg => Throw (McpError msg)
  end.

Definition served_line (d : Served) : string :=
  trace_line rt (call_name (served_call d)) (served_args d).

Definition invocation_result (d : Served) : ToolInvocationResult :=
  mkToolInvocationResult (call_id (served_call d)) (served_result d).

(** The two arguments of [chat.completions.create] in [processQuery]. *)
Definition first_request (ts : list OpenAiTool) (query : string) : CompletionRequest :=
  mkCompletionRequest "gpt-4o" 1000 [UserMessage query] (tools_field ts).

Definition second_request (ts : list OpenAiTool) (query : string) (msg : ChatMessage)
    (toolCalls : list ToolCall) (done : list Served) : CompletionRequest :=
  mkCompletionRequest "gpt-4o" 1000
    ([UserMessage query]
       ++ [AssistantMessage (str_or (content msg) "") toolCalls]
       ++ map (tool_message rt) (map invocation_result done))
    (tools_field ts).

End Serving.

(** ** Lemmas on the monad and the heap *)

(** ** [cleanup] (lines 185-195) and [main] (lines 222-238) *)

(** How the process ends: [process.exit(code)], [main] returned and nothing
    is left to run, an exception nobody caught, or a promise that is never
    settled. *)
Inductive ProcessEnd : Type :=
| Exited (code : Z)
| Returned
| Crashed (e : Error)
| Hung.

Section Process.

Context {W : Type} (rt : Runtime W).

(** [this.mcp.close()], outside the repository as the fields of [Runtime]
    are.  The history has no event for it: a close shows in the world. *)
Context (mcp_close : W -> (string + unit) * W).

#[local] Existing Instance M_ret.
#[local] Existing Instance M_bind.

(** [await this.mcp.close()] *)
Definition close : M W unit := fun s =>
  let (res, w) := mcp_close (world s) in
  let s' := mkState (this s) (heap s) w (history s) in
  match res with
  | inl msg => (Throw (McpError msg), s')
  | inr _ => (Return tt, s')
  end.

Definition cleanup : M W unit :=
  try_catch
    (close;;
     set_transport None)
    (fun e => console_log [LStr "Failed to cleanup: "; LErr e]).

(** [new MCPClient()] in front of the world [w] *)
Definition new_client (w : W) : State W :=
  mkState (mkMCPClient [] None) [] w [].

Definition usage : string := "Usage: node index.js <path_to_server_script>".

(** [main()] on [process.argv] and the lines typed at the prompt: the
    control flow of the function itself.  The first branch of the match is
    [process.argv.length >= 3], with [process.argv[2]] for the path.
    [process.exit(0)] in the [finally] block ends the process before the
    exception of the [try] block is thrown on.  What the process does when the
    promise that line 72 drops is rejected while [main] is waiting is outside
    this function and not modelled. *)
Definition main (argv : list string) (lines : list string) (w : W)
    : ProcessEnd * State W :=
  match argv with
  | _ :: _ :: serverScriptPath :: _ =>
    let mcpClient := new_client w in
    match (connectToServer rt serverScriptPath;; chatLoop rt lines) mcpClient with
    | (Pending, s) => (Hung, s)
    | (_, s) =>
      match cleanup s with
      | (Return _, s') => (Exited 0, s')
      | (Throw e, s') => (Crashed e, s')
      | (Pending, s') => (Hung, s')
      end
    end
  | _ => (Returned, snd (console_log [LStr usage] (new_client w)))
  end.

End Process.

(** The answers of the Transport Adapter and the lines of the console, in
    order. *)
Definition answers (h : list Event) : list (string + CallToolResult) :=
  flat_map (fun ev => match ev with EvCallTool _ _ res => [res] | _ => [] end) h.

Definition consoles (h : list Event) : list (list LogArg) :=
  flat_map (fun ev => match ev with EvConsole line => [line] | _ => [] end) h.

(** The command [connectToServer] starts the server with. *)
Definition server_command {W : Type} (rt : Runtime W) (isPy : bool) : string :=
  if isPy
  then (if String.eqb (process_platform rt) "win32" then "python" else "python3")
  else process_execPath rt.

(** Two ways for the scripted server to answer [close]. *)
Definition close_ok (w : Scripted.Script) : (string + unit) * Scripted.Script :=
  (inr tt, w).

Definition close_fails (w : Scripted.Script) : (string + unit) * Scripted.Script :=
  (inl "connection closed", w).

(** A server that does not answer the discovery. *)
Definition unreachable_script : Scripted.Script :=
  Scripted.mkScript [] (inl "server unreachable") [].

(** The model asks for [add] and then for a call whose payload is no JSON,
    and the server fails on [add]. *)
Definition early_failure_script : Scripted.Script :=
  Scripted.mkScript
    [Scripted.answer None (Some [Scripted.add_call; Scripted.bad_call]);
     Scripted.answer (Some "hello") None]
    (inr [Scripted.add_tool])
    [inl "tool failed"].

(** The first query is answered, the second carries a payload that is no
    JSON, a third could be answered. *)
Definition second_query_fails_script : Scripted.Script :=
  Scripted.mkScript
    [Scripted.answer (Some "hi") None;
     Scripted.answer None (Some [Scripted.bad_call]);
     Scripted.answer (Some "unreached") None]
    (inr [Scripted.add_tool])
    [].

(** [process.argv] of [node index.js server.py]. *)
Definition sample_argv : list string := ["node"; "index.js"; "server.py"].

Arguments exchanges : simpl never.
Arguments requests : simpl never.
Arguments invocations : simpl never.

Section Properties.

Context {W : Type} (rt : Runtime W).

Implicit Types (s : State W) (a : loc) (h : list (list string)).

Lemma pushed_nil a h : pushed a [] h = h.
Proof.
  unfold pushed. apply list_alter_id. intros items. by rewrite app_nil_r.
Qed.

Lemma pushed_pushed a xs ys h : pushed a ys (pushed a xs h) = pushed a (xs ++ ys) h.
Proof.
  unfold pushed. rewrite list_alter_alter_eq.
  apply list_alter_ext; [|done]. intros items _. simpl. by rewrite app_assoc.
Qed.

Lemma callTools_loop_run toolCalls finalText toolResults s :
  callTools_loop rt toolCalls finalText toolResults s =
  let '(done, stop, w) := serve rt toolCalls (world s) in
  (stop_outcome stop (toolResults ++ map invocation_result done),
   mkState (this s) (pushed finalText (map (served_line rt) done) (heap s)) w
           (history s ++ flat_map (served_events rt finalText) done ++ stop_events rt stop)).
Proof.
  revert toolResults s. induction toolCalls as [|tc rest IH]; intros acc s.
  - simpl. rewrite pushed_nil, !app_nil_r. by destruct s.
  - simpl. unfold mbind, M_bind, parse_arguments.
    destruct (JSON_parse rt (arguments tc)) as [a|]; simpl.
    + unfold callTool. simpl.
      destruct (mcp_callTool rt (call_name tc) a (world s)) as [[msg|r] w'] eqn:Hcall; simpl.
      * rewrite pushed_nil. by rewrite <- app_assoc.
      * rewrite IH. simpl.
        destruct (serve rt rest w') as [[done stop] w'']. simpl.
        change (alter _ finalText (heap s))
          with (pushed finalText [trace_line rt (call_name tc) a] (heap s)).
        rewrite pushed_pushed, <- !app_assoc. done.
    + rewrite pushed_nil, !app_nil_r. by destruct s.
Qed.

Lemma pushed_last lines items h :
  pushed (length h) lines (h ++ [items]) = h ++ [items ++ lines].
Proof.
  unfold pushed. rewrite <- (Nat.add_0_r (length h)). by rewrite alter_app_r.
Qed.

Lemma read_last items h : default [] ((h ++ [items]) !! length h) = items.
Proof. by rewrite list_lookup_middle. Qed.

Lemma push_content_run a c s :
  push_content a c s =
  (Return tt,
   mkState (this s) (pushed a (text_of c) (heap s)) (world s)
           (history s ++ map (EvPush a) (text_of c))).
Proof.
  unfold push_content, text_of.
  destruct c as [text|]; [destruct (String.eqb text "")|]; simpl;
    try done; rewrite pushed_nil, app_nil_r; by destruct s.
Qed.

(** ** The runs of [processQuery] *)

Lemma processQuery_run query s :
  processQuery rt query s =
  let a := length (heap s) in
  let req1 := first_request (tools (this s)) query in
  match openai_create rt req1 (world s) with
  | (inl err, w1) =>
    (Throw (APIError err),
     mkState (this s) (heap s) w1 (history s ++ [EvCreate req1 (inl err)]))
  | (inr resp1, w1) =>
    match choices resp1 with
    | [] =>
      (Throw no_choice,
       mkState (this s) (heap s ++ [[]]) w1 (history s ++ [EvCreate req1 (inr resp1)]))
    | c1 :: _ =>
      let m1 := message c1 in
      let h1 := history s ++ [EvCreate req1 (inr resp1)]
                  ++ map (EvPush a) (text_of (content m1)) in
      match tool_calls m1 with
      | None =>
        (Return (String.concat LF (text_of (content m1))),
         mkState (this s) (heap s ++ [text_of (content m1)]) w1 h1)
      | Some toolCalls =>
        let '(done, stop, w2) := serve rt toolCalls w1 in
        let lines := text_of (content m1) ++ map (served_line rt) done in
        let h2 := h1 ++ flat_map (served_events rt a) done ++ stop_events rt stop in
        match stop with
        | Completed =>
          let req2 := second_request rt (tools (this s)) query m1 toolCalls done in
          match openai_create rt req2 w2 with
          | (inl err, w3) =>
            (Throw (APIError err),
             mkState (this s) (heap s ++ [lines]) w3 (h2 ++ [EvCreate req2 (inl err)]))
          | (inr resp2, w3) =>
            match choices resp2 with
            | [] =>
              (Throw no_choice,
               mkState (this s) (heap s ++ [lines]) w3
                       (h2 ++ [EvCreate req2 (inr resp2)]))
            | c2 :: _ =>
              let last := text_of (content (message c2)) in
              (Return (String.concat LF (lines ++ last)),
               mkState (this s) (heap s ++ [lines ++ last]) w3
                       (h2 ++ [EvCreate req2 (inr resp2)] ++ map (EvPush a) last))
            end
          end
        | BadArguments toolCall =>
          (Throw (SyntaxError (arguments toolCall)),
           mkState (this s) (heap s ++ [lines]) w2 h2)
        | ToolFailed _ _ msg =>
          (Throw (McpError msg), mkState (this s) (heap s ++ [lines]) w2 h2)
        end
      end
    end
  end.
Proof.
  unfold processQuery, first_request, second_request.
  unfold mbind, M_bind, get_tools, create, new_array, first_message. simpl.
  destruct (openai_create rt _ (world s)) as [[err|resp1] w1]; simpl; [done|].
  destruct (choices resp1) as [|c1 cs1]; simpl; [done|].
  rewrite push_content_run. simpl. rewrite pushed_last. simpl.
  destruct (tool_calls (message c1)) as [toolCalls|]; simpl.
  - unfold callTools. rewrite callTools_loop_run. simpl.
    destruct (serve rt toolCalls w1) as [[done stop] w2]. simpl.
    rewrite pushed_last.
    destruct stop; simpl.
    + destruct (openai_create rt _ w2) as [[err|resp2] w3]; simpl.
      * by rewrite <- !app_assoc.
      * destruct (choices resp2) as [|c2 cs2]; simpl.
        -- by rewrite <- !app_assoc.
        -- rewrite push_content_run. simpl. rewrite pushed_last.
           unfold read. simpl. rewrite read_last. by rewrite <- !app_assoc.
    + by rewrite <- !app_assoc.
    + by rewrite <- !app_assoc.
  - unfold read. simpl. rewrite read_last. by rewrite <- !app_assoc.
Qed.

(** ** Lemmas on histories and on the tool phase *)

Lemma since_app s s' (delta : list Event) :
  history s' = history s ++ delta → since s s' = delta.
Proof. intros H. unfold since. rewrite H. by rewrite drop_app_length. Qed.

Lemma exchanges_app (tr tr' : list Event) :
  exchanges (tr ++ tr') = exchanges tr ++ exchanges tr'.
Proof. apply flat_map_app. Qed.

Lemma exchanges_pushes a lines : exchanges (map (EvPush a) lines) = [].
Proof. by induction lines. Qed.

Lemma exchanges_served a (done : list Served) :
  exchanges (flat_map (served_events rt a) done) = [].
Proof. by induction done. Qed.

Lemma exchanges_stop stop : exchanges (stop_events rt stop) = [].
Proof. by destruct stop. Qed.

Lemma invocations_app (tr tr' : list Event) :
  invocations (tr ++ tr') = invocations tr ++ invocations tr'.
Proof. apply flat_map_app. Qed.

Lemma invocations_pushes a lines : invocations (map (EvPush a) lines) = [].
Proof. by induction lines. Qed.

Lemma invocations_served a (done : list Served) :
  invocations (flat_map (served_events rt a) done)
  = map (fun d => (call_name (served_call d), served_args d)) done.
Proof.
  induction done as [|d done IH]; [done|].
  cbn [flat_map map]. by rewrite invocations_app, IH.
Qed.

(** A batch carried out to its end: every request was served, in order, on
    its parsed payload. *)
Lemma serve_completed toolCalls w done w' :
  serve rt toolCalls w = (done, Completed, w') →
  map served_call done = toolCalls
  ∧ Forall (fun d => JSON_parse rt (arguments (served_call d)) = Some (served_args d)) done.
Proof.
  revert w done. induction toolCalls as [|tc rest IH]; intros w done H; simpl in H.
  - by inversion H.
  - destruct (JSON_parse rt (arguments tc)) as [a|] eqn:Hparse; [|done].
    destruct (mcp_callTool rt (call_name tc) a w) as [[msg|r] w1]; [done|].
    destruct (serve rt rest w1) as [[done' stop] w2] eqn:Hrest.
    inversion H; subst. destruct (IH _ _ Hrest) as [Hcalls Hargs].
    split; [simpl; by rewrite Hcalls | by constructor].
Qed.

(** The requests served are the first ones of the batch, whatever stopped
    it; a failing invocation belongs to the request that follows them. *)
Lemma serve_prefix toolCalls w done stop w' :
  serve rt toolCalls w = (done, stop, w') →
  ∃ rest, toolCalls = map served_call done ++ rest
    ∧ Forall (fun d => JSON_parse rt (arguments (served_call d)) = Some (served_args d)) done
    ∧ match stop with
      | Completed => rest = []
      | BadArguments tc =>
        ∃ rest', rest = tc :: rest' ∧ JSON_parse rt (arguments tc) = None
      | ToolFailed tc a _ =>
        ∃ rest', rest = tc :: rest' ∧ JSON_parse rt (arguments tc) = Some a
      end.
Proof.
  revert w done. induction toolCalls as [|tc rest IH]; intros w done H; simpl in H.
  - inversion H; subst. by exists [].
  - destruct (JSON_parse rt (arguments tc)) as [a|] eqn:Hparse.
    + destruct (mcp_callTool rt (call_name tc) a w) as [[msg|r] w1].
      * inversion H; subst. exists (tc :: rest). repeat split; [constructor|]. by exists rest.
      * destruct (serve rt rest w1) as [[done' stop'] w2] eqn:Hrest.
        inversion H; subst. destruct (IH _ _ Hrest) as (rest' & Heq & Hargs & Hstop).
        exists rest'. repeat split; [simpl; by rewrite <- Heq | by constructor | done].
    + inversion H; subst. exists (tc :: rest). repeat split; [constructor|]. by exists rest.
Qed.

(** A payload that does not parse stops the batch at the latest there. *)
Lemma serve_bad_arguments before toolCall after w :
  JSON_parse rt (arguments toolCall) = None →
  serve rt (before ++ toolCall :: after) w =
  match serve rt before w with
  | (done, Completed, w') => (done, BadArguments toolCall, w')
  | r => r
  end.
Proof.
  intros Hbad. revert w. induction before as [|tc rest IH]; intros w; simpl.
  - by rewrite Hbad.
  - destruct (JSON_parse rt (arguments tc)) as [a|]; [|done].
    destruct (mcp_callTool rt (call_name tc) a w) as [[msg|r] w1]; [done|].
    rewrite IH. by destruct (serve rt rest w1) as [[done [| |]] w2].
Qed.

Lemma since_mk s (t : MCPClient) h (w : W) (delta : list Event) :
  since s (mkState t h w (history s ++ delta)) = delta.
Proof. by apply since_app. Qed.

Lemma requests_app (tr tr' : list Event) :
  requests (tr ++ tr') = requests tr ++ requests tr'.
Proof. unfold requests. by rewrite exchanges_app, map_app. Qed.

Lemma requests_create req res (tr : list Event) :
  requests (EvCreate req res :: tr) = req :: requests tr.
Proof. done. Qed.

Lemma requests_pushes a lines : requests (map (EvPush a) lines) = [].
Proof. unfold requests. by rewrite exchanges_pushes. Qed.

Lemma requests_served a (done : list Served) :
  requests (flat_map (served_events rt a) done) = [].
Proof. unfold requests. by rewrite exchanges_served. Qed.

Lemma requests_stop stop : requests (stop_events rt stop) = [].
Proof. unfold requests. by rewrite exchanges_stop. Qed.

Lemma exchanges_create req res (tr : list Event) :
  exchanges (EvCreate req res :: tr) = (req, res) :: exchanges tr.
Proof. done. Qed.

Lemma invocations_create req res (tr : list Event) :
  invocations (EvCreate req res :: tr) = invocations tr.
Proof. done. Qed.

Lemma requests_nil : requests [] = [].
Proof. done. Qed.

Lemma exchanges_nil : exchanges [] = [].
Proof. done. Qed.

Lemma invocations_nil : invocations [] = [].
Proof. done. Qed.

(** Reduces [since s s'] on the state a run ends in, then the observations
    on it. *)
Ltac observe :=
  cbn [fst snd]; rewrite <- ?app_assoc; rewrite ?since_mk;
  repeat first
    [ rewrite requests_app | rewrite requests_create | rewrite requests_pushes
    | rewrite requests_served | rewrite requests_stop | rewrite requests_nil
    | rewrite exchanges_app | rewrite exchanges_create | rewrite exchanges_pushes
    | rewrite exchanges_served | rewrite exchanges_stop | rewrite exchanges_nil
    | rewrite invocations_app | rewrite invocations_create
    | rewrite invocations_pushes | rewrite invocations_served
    | rewrite invocations_nil ];
  rewrite ?app_nil_r; cbn [app].

(** Splits a run of [processQuery] into the seven ways it can end. *)
Ltac run_cases s :=
  rewrite processQuery_run; cbv zeta;
  destruct (openai_create rt _ (world s)) as [[err|resp1] w1] eqn:Hcreate;
  [| destruct (choices resp1) as [|c1 cs1] eqn:Hchoices;
     [| destruct (tool_calls (message c1)) as [toolCalls|] eqn:Hcalls;
        [ destruct (serve rt toolCalls w1) as [[done stop] w2] eqn:Hserve;
          destruct stop as [|badCall|failedCall failedArgs failure];
          [ destruct (openai_create rt _ w2) as [[err|resp2] w3] eqn:Hcreate2;
            [| destruct (choices resp2) as [|c2 cs2] eqn:Hchoices2 ] | | ]
        | ] ] ].

Lemma no_user_message text (results : list ToolInvocationResult) :
  ¬ In (UserMessage text) (map (tool_message rt) results).
Proof. induction results as [|r results IH]; simpl; [tauto|]. intros [H|H]; [done|tauto]. Qed.

(** ** The rounds of [processQuery] *)

(** C10.  When the first response carries a tool-call list that is present
    but empty, [processQuery] calls the Completion Client a second time, on
    the user message followed by one assistant message and no tool message,
    and never calls the Transport Adapter. *)
Theorem empty_tool_calls_second_round query s resp w1 c cs :
  openai_create rt (first_request (tools (this s)) query) (world s) = (inr resp, w1) →
  choices resp = c :: cs →
  tool_calls (message c) = Some [] →
  let s' := snd (processQuery rt query s) in
  requests (since s s') =
    [first_request (tools (this s)) query;
     mkCompletionRequest "gpt-4o" 1000
       [UserMessage query; AssistantMessage (str_or (content (message c)) "") []]
       (tools_field (tools (this s)))]
  ∧ invocations (since s s') = [].
Proof.
  intros Hcreate Hchoices Hcalls s'. subst s'.
  rewrite processQuery_run. cbv zeta. rewrite Hcreate, Hchoices, Hcalls.
  cbn [serve stop_events flat_map map app].
  destruct (openai_create rt _ w1) as [[err|resp2] w3]; [|destruct (choices resp2)];
    observe; done.
Qed.

(** C1, as amended.  For every first-round model response: if it has no
    tool-call list, [processQuery] makes exactly one Completion Client call
    and no Transport Adapter invocation; if it has a tool-call list of N
    requests, N >= 0, and each of them is carried out, [processQuery] makes
    exactly two Completion Client calls and exactly N Transport Adapter
    invocations, of the tools and on the parsed payloads the model supplied,
    in its order. *)
Theorem processQuery_contacts query s resp w1 c cs :
  openai_create rt (first_request (tools (this s)) query) (world s) = (inr resp, w1) →
  choices resp = c :: cs →
  let s' := snd (processQuery rt query s) in
  match tool_calls (message c) with
  | None =>
    length (requests (since s s')) = 1%nat ∧ invocations (since s s') = []
  | Some toolCalls =>
    ∀ done w2, serve rt toolCalls w1 = (done, Completed, w2) →
      length (requests (since s s')) = 2%nat
      ∧ map fst (invocations (since s s')) = map call_name toolCalls
      ∧ Forall2 (fun tc inv => JSON_parse rt (arguments tc) = Some (snd inv))
                toolCalls (invocations (since s s'))
  end.
Proof.
  intros Hcreate Hchoices s'. subst s'.
  rewrite processQuery_run. cbv zeta. rewrite Hcreate, Hchoices.
  destruct (tool_calls (message c)) as [toolCalls|].
  - intros done w2 Hserve. rewrite Hserve.
    destruct (serve_completed _ _ _ _ Hserve) as [Hcalls Hargs].
    assert (Hinv : Forall2 (fun tc inv => JSON_parse rt (arguments tc) = Some (snd inv))
              toolCalls (map (fun d => (call_name (served_call d), served_args d)) done)).
    { rewrite <- Hcalls. clear Hcalls Hserve.
      induction Hargs; simpl; constructor; done. }
    assert (Hnames : map fst (map (fun d => (call_name (served_call d), served_args d)) done)
                     = map call_name toolCalls).
    { rewrite <- Hcalls, !map_map. done. }
    destruct (openai_create rt _ w2) as [[err|resp2] w3]; [|destruct (choices resp2)];
      observe; done.
  - observe. done.
Qed.

(** C8.  Whatever came before, [processQuery] first sends the Completion
    Client the one-element list holding the user message of the query; every
    message list it sends holds that user message and no other; and, however
    the query ends, the session state (tool-spec list and transport handle) is
    what it was. *)
Theorem processQuery_fresh_messages query s :
  let s' := snd (processQuery rt query s) in
  this s' = this s
  ∧ (∃ res rest,
       since s s' =
       EvCreate (mkCompletionRequest "gpt-4o" 1000 [UserMessage query]
                                     (tools_field (tools (this s)))) res :: rest)
  ∧ ∀ req, In req (requests (since s s')) →
      ∃ more, messages req = UserMessage query :: more
              ∧ ∀ text, ¬ In (UserMessage text) more.
Proof.
  assert (Hfirst : ∀ req, In req [first_request (tools (this s)) query] →
            ∃ more, messages req = UserMessage query :: more
                    ∧ ∀ text, ¬ In (UserMessage text) more).
  { intros req [<-|[]]. exists []. split; [done|]. intros text []. }
  assert (Hboth : ∀ m toolCalls done req,
            In req [first_request (tools (this s)) query;
                    second_request rt (tools (this s)) query m toolCalls done] →
            ∃ more, messages req = UserMessage query :: more
                    ∧ ∀ text, ¬ In (UserMessage text) more).
  { intros m toolCalls done req [<-|[<-|[]]].
    - exists []. split; [done|]. intros text [].
    - eexists. split; [reflexivity|]. intros text [H|H]; [done|].
      by apply no_user_message in H. }
  intros s'. subst s'. run_cases s; cbn [snd this]; (split; [done|]);
    (split; [observe; rewrite <- ?app_assoc; cbn [app]; by eexists _, _|]);
    observe; eauto.
Qed.

(** C9.  In the message list of the second Completion Client call, the user
    message is followed by one assistant message carrying the tool-call
    requests and then by tool messages only, one per request and in the order
    of the requests, each referring to the id of its request. *)
Theorem tool_messages_follow_calls query s req1 req2 more :
  requests (since s (snd (processQuery rt query s))) = req1 :: req2 :: more →
  ∃ text toolCalls toolMessages,
    messages req2 = [UserMessage query; AssistantMessage text toolCalls] ++ toolMessages
    ∧ Forall2 (fun m tc => ∃ c, m = ToolMessage c (call_id tc)) toolMessages toolCalls.
Proof.
  assert (Hmsgs : ∀ toolCalls w1 done w2,
            serve rt toolCalls w1 = (done, Completed, w2) →
            Forall2 (fun m tc => ∃ c, m = ToolMessage c (call_id tc))
                    (map (tool_message rt) (map invocation_result done)) toolCalls).
  { intros toolCalls w1 done w2 Hserve.
    destruct (serve_completed _ _ _ _ Hserve) as [<- _]. clear Hserve.
    induction done as [|d done' IH]; simpl; constructor; [by eexists|done]. }
  run_cases s; observe; intros H; inversion H; subst;
    eexists _, _, _; (split; [reflexivity|]); eapply Hmsgs; eassumption.
Qed.

Lemma invocations_stop stop :
  invocations (stop_events rt stop) =
  match stop with
  | ToolFailed toolCall a _ => [(call_name toolCall, a)]
  | _ => []
  end.
Proof. by destruct stop. Qed.

Lemma served_lines (done : list Served) :
  zip_with (fun tc args => trace_line rt (call_name tc) args)
           (map served_call done) (map served_args done)
  = map (served_line rt) done.
Proof. induction done as [|d done IH]; [done|]. simpl. by rewrite IH. Qed.

Lemma served_payloads (done : list Served) :
  Forall (fun d => JSON_parse rt (arguments (served_call d)) = Some (served_args d)) done →
  Forall2 (fun tc args => JSON_parse rt (arguments tc) = Some args)
          (map served_call done) (map served_args done).
Proof. induction 1; simpl; constructor; done. Qed.

(** The text a query returns: the content of the first response, the trace
    lines of the batch, the content of the second response. *)
Lemma processQuery_returns query s text s' :
  processQuery rt query s = (Return text, s') →
  ∃ req1 resp1 c1 cs1,
    choices resp1 = c1 :: cs1
    ∧ match tool_calls (message c1) with
      | None =>
        exchanges (since s s') = [(req1, inr resp1)]
        ∧ text = String.concat LF (text_of (content (message c1)))
      | Some toolCalls =>
        ∃ argsl req2 resp2 c2 cs2,
          exchanges (since s s') = [(req1, inr resp1); (req2, inr resp2)]
          ∧ choices resp2 = c2 :: cs2
          ∧ Forall2 (fun tc args => JSON_parse rt (arguments tc) = Some args) toolCalls argsl
          ∧ text = String.concat LF
                     (text_of (content (message c1))
                      ++ zip_with (fun tc args => trace_line rt (call_name tc) args)
                                  toolCalls argsl
                      ++ text_of (content (message c2)))
      end.
Proof.
  run_cases s; intros H; inversion H; subst; clear H.
  - destruct (serve_completed _ _ _ _ Hserve) as [Hdone Hargs].
    exists (first_request (tools (this s)) query), resp1, c1, cs1.
    split; [done|]. rewrite Hcalls.
    exists (map served_args done),
           (second_request rt (tools (this s)) query (message c1) toolCalls done),
           resp2, c2, cs2.
    split; [by observe|]. split; [done|].
    rewrite <- Hdone. split; [by apply served_payloads|].
    by rewrite served_lines, app_assoc.
  - exists (first_request (tools (this s)) query), resp1, c1, cs1.
    split; [done|]. rewrite Hcalls. split; [by observe|done].
Qed.

(** C5, as amended.  When the payload of a request of the batch is not
    valid JSON, [processQuery] fails, makes no second Completion Client call,
    and invokes no tool other than those requested before it, in their order:
    neither that tool nor a later one.  When the requests before it were all
    carried out, the failure is the parse error of that payload and exactly
    the tools requested before it have been invoked. *)
Theorem bad_arguments_abort query s resp w1 c cs before toolCall after :
  openai_create rt (first_request (tools (this s)) query) (world s) = (inr resp, w1) →
  choices resp = c :: cs →
  tool_calls (message c) = Some (before ++ toolCall :: after) →
  JSON_parse rt (arguments toolCall) = None →
  let o := fst (processQuery rt query s) in
  let s' := snd (processQuery rt query s) in
  (∃ e, o = Throw e)
  ∧ requests (since s s') = [first_request (tools (this s)) query]
  ∧ map fst (invocations (since s s')) `prefix_of` map call_name before
  ∧ ∀ done w2, serve rt before w1 = (done, Completed, w2) →
      o = Throw (SyntaxError (arguments toolCall))
      ∧ map fst (invocations (since s s')) = map call_name before.
Proof.
  intros Hcreate Hchoices Hcalls Hbad o s'. subst o s'.
  rewrite processQuery_run. cbv zeta. rewrite Hcreate, Hchoices, Hcalls.
  rewrite (serve_bad_arguments _ _ _ _ Hbad).
  destruct (serve rt before w1) as [[done stop] w2] eqn:Hserve.
  destruct (serve_prefix _ _ _ _ _ Hserve) as (rest & Hbefore & _ & Hstop).
  destruct stop as [|badCall|failedCall failedArgs failure]; observe;
    rewrite ?invocations_stop, ?app_nil_r.
  - subst rest. rewrite app_nil_r in Hbefore.
    assert (Hnames : map fst (map (fun d => (call_name (served_call d), served_args d)) done)
                     = map call_name before) by (by rewrite Hbefore, !map_map).
    split; [by eexists|]. split; [done|]. split; [by rewrite Hnames|].
    intros done' w2' _. done.
  - destruct Hstop as (rest' & -> & _).
    split; [by eexists|]. split; [done|]. split; [|done].
    rewrite Hbefore, map_app, !map_map. by apply prefix_app_r.
  - destruct Hstop as (rest' & -> & _).
    split; [by eexists|]. split; [done|]. split; [|done].
    rewrite Hbefore, !map_app, !map_map. simpl.
    apply prefix_app, prefix_cons, prefix_nil.
Qed.

(** ** The order of effects in [callTools] *)

(** C6, as amended.  For every tool call that [callTools] carries out, the
    line "Calling tool <name> with args <json>" is written to the console
    before the tool is invoked, and the trace line
    "[Calling tool <name> with args <json>]" is appended to the output-text
    sequence right after the invocation has succeeded. *)
Theorem trace_line_follows_invocation toolCalls finalText s :
  let o := fst (callTools rt toolCalls finalText s) in
  let s' := snd (callTools rt toolCalls finalText s) in
  ∃ done rest,
    toolCalls = map served_call done ++ rest
    ∧ (∀ results, o = Return results → rest = [])
    ∧ (∃ last,
         since s s' =
         flat_map (fun d : Served =>
                     let '(tc, args, res) := d in
                     [EvConsole [LStr (call_line rt (call_name tc) args)];
                      EvCallTool (call_name tc) args (inr res);
                      EvPush finalText (trace_line rt (call_name tc) args)]) done
         ++ last
         ∧ ∀ array text, ¬ In (EvPush array text) last)
    ∧ heap s' =
      pushed finalText
             (map (fun d : Served =>
                     let '(tc, args, _) := d in trace_line rt (call_name tc) args) done)
             (heap s).
Proof.
  intros o s'. subst o s'. unfold callTools. rewrite callTools_loop_run.
  destruct (serve rt toolCalls (world s)) as [[done stop] w2] eqn:Hserve.
  destruct (serve_prefix _ _ _ _ _ Hserve) as (rest & Hcalls & _ & Hstop).
  exists done, rest. split; [done|]. split.
  { destruct stop; simpl; [done| |]; intros results H; discriminate H. }
  split.
  - exists (stop_events rt stop). split.
    + observe. f_equal. apply flat_map_ext. by intros [[tc args] res].
    + intros array text. destruct stop; simpl; [tauto|tauto|].
      intros [H|[H|[]]]; discriminate H.
  - cbn [snd heap]. f_equal. apply map_ext. by intros [[tc args] res].
Qed.

(** ** Errors in the session loop *)

(** The first line: when [processQuery] raises an error on it, [chatLoop]
    closes the readline interface and ends with that error. *)
Lemma chatLoop_error_ends_loop query rest s e s1 :
  query ≠ "exit" →
  processQuery rt query (snd (emit (EvQuestion prompt query) s)) = (Throw e, s1) →
  chatLoop rt (query :: rest) s =
  (Throw e, mkState (this s1) (heap s1) (world s1) (history s1 ++ [EvRlClose])).
Proof.
  intros Hquery Hthrow. unfold chatLoop, try_finally. simpl.
  unfold mbind at 1. unfold M_bind at 1. simpl in *.
  destruct (String.eqb_spec query "exit") as [->|_]; [done|].
  unfold mbind at 1. unfold M_bind at 1. by rewrite Hthrow.
Qed.

(** ** The tools of a session *)

Lemma adapt_all_length discovered specs :
  adapt_all discovered = inr specs → length specs = length discovered.
Proof.
  revert specs. induction discovered as [|tool rest IH]; intros specs H; simpl in H.
  - by inversion H.
  - destruct (openAiToolAdapter _) as [e|spec]; [done|].
    destruct (adapt_all rest) as [e|specs']; [done|].
    inversion H; subst. simpl. by rewrite (IH specs' eq_refl).
Qed.

(** A connection that succeeds: one discovery, whose tools, adapted, are the
    tools of the session. *)
Lemma connectToServer_returns path s0 s1 :
  connectToServer rt path s0 = (Return tt, s1) →
  ∃ discovered,
    discoveries (since s0 s1) = [inr discovered]
    ∧ adapt_all discovered = inr (tools (this s1)).
Proof.
  unfold connectToServer, try_catch.
  unfold mbind at 1. unfold M_bind at 1.
  destruct (negb (endsWith path ".js") && negb (endsWith path ".py")); simpl.
  { unfold console_log, emit. unfold mbind, M_bind. simpl. discriminate. }
  unfold mbind, M_bind, set_transport, connect, listTools. simpl.
  destruct (mcp_listTools rt _) as [[msg|discovered] w]; simpl; [discriminate|].
  unfold lift. destruct (adapt_all discovered) as [e|specs] eqn:Hadapt; simpl; [discriminate|].
  intros H. inversion H; subst. exists discovered.
  split; [|done]. unfold since. simpl. rewrite <- !app_assoc. by rewrite drop_app_length.
Qed.

(** C4.  In a session whose capability discovery answered no tool, every
    Completion Client call of [processQuery] is made without a tools field;
    when it answered at least one tool, every call carries the whole list of
    adapted tool specs. *)
Theorem tools_field_of_session path s0 s1 query s req :
  connectToServer rt path s0 = (Return tt, s1) →
  this s = this s1 →
  In req (requests (since s (snd (processQuery rt query s)))) →
  ∃ discovered specs,
    discoveries (since s0 s1) = [inr discovered]
    ∧ adapt_all discovered = inr specs
    ∧ req_tools req = match discovered with [] => None | _ :: _ => Some specs end.
Proof.
  intros Hconnect Hthis Hreq.
  destruct (connectToServer_returns _ _ _ Hconnect) as (discovered & Hdisc & Hadapt).
  exists discovered, (tools (this s1)). split; [done|]. split; [done|].
  assert (Hfield : tools_field (tools (this s)) =
                   match discovered with [] => None | _ :: _ => Some (tools (this s1)) end).
  { rewrite Hthis. pose proof (adapt_all_length _ _ Hadapt) as Hlen.
    unfold tools_field. destruct discovered, (tools (this s1)); simpl in *; done. }
  rewrite <- Hfield. clear Hfield Hadapt Hdisc Hconnect Hthis.
  revert Hreq. run_cases s; observe; simpl; intros Hreq;
    repeat (destruct Hreq as [<-|Hreq]; [done|]); done.
Qed.

End Properties.

(** ** The schema adapter *)

(** C3.  On every tool descriptor (its schema is an object, at least not
    null) the adapter succeeds, with a result that depends on the fields of
    the descriptor only; a missing description yields "Tool: <name>", a
    missing [properties] the empty mapping and a missing [required] the empty
    list. *)
Theorem openAiToolAdapter_total (tool : ToolDescriptor) :
  input_schema tool ≠ JNull →
  ∃ spec,
    openAiToolAdapter tool = inr spec
    ∧ (∀ tool', name tool' = name tool → description tool' = description tool →
                input_schema tool' = input_schema tool →
                openAiToolAdapter tool' = inr spec)
    ∧ (description tool = None →
       fn_description (tool_function spec) = "Tool: " +:+ name tool)
    ∧ (get_prop (input_schema tool) "properties" = inr None →
       properties (parameters (tool_function spec)) = JObj [])
    ∧ (get_prop (input_schema tool) "required" = inr None →
       required (parameters (tool_function spec)) = JArr []).
Proof.
  intros Hschema. unfold openAiToolAdapter.
  destruct (get_prop (input_schema tool) "properties") as [e|props] eqn:Hprops.
  { destruct (input_schema tool); simpl in Hprops; congruence. }
  destruct (get_prop (input_schema tool) "required") as [e|req] eqn:Hreq.
  { destruct (input_schema tool); simpl in Hreq; congruence. }
  eexists. split; [reflexivity|]. split.
  - intros tool' Hname Hdescription Hinput.
    by rewrite Hname, Hdescription, Hinput, Hprops, Hreq.
  - simpl. split; [by intros ->|].
    split; intros H; inversion H; by subst.
Qed.

(** A descriptor with a name and an empty schema. *)
Lemma openAiToolAdapter_total_witness :
  ∃ spec,
    openAiToolAdapter (mkToolDescriptor "echo" None (JObj [])) = inr spec
    ∧ fn_description (tool_function spec) = "Tool: echo"
    ∧ properties (parameters (tool_function spec)) = JObj []
    ∧ required (parameters (tool_function spec)) = JArr [].
Proof.
  destruct (openAiToolAdapter_total (mkToolDescriptor "echo" None (JObj [])))
    as (spec & Hspec & _ & Hdescription & Hproperties & Hrequired).
  - simpl. discriminate.
  - exists spec. split; [exact Hspec|]. split; [exact (Hdescription eq_refl)|].
    split; [exact (Hproperties eq_refl) | exact (Hrequired eq_refl)].
Defined.

(** ** Sessions against the scripted world *)

Import Scripted.

(** C1, counterexample.  The first response carries zero tool-call requests
    (its list is present and empty) and [processQuery] calls the Completion
    Client twice.  And with one tool-call request, whose payload does not
    parse, it calls the Completion Client once and invokes no tool. *)
Lemma zero_requests_two_rounds :
  let s := connected empty_batch_script in
  let s' := snd (processQuery runtime "hello" s) in
  let t := connected bad_arguments_script in
  let t' := snd (processQuery runtime "add 2 and 3" t) in
  fst (openai_create runtime (first_request (tools (this s)) "hello") (world s))
  = answer (Some "hi") (Some [])
  ∧ length (requests (since s s')) = 2%nat
  ∧ invocations (since s s') = []
  ∧ fst (openai_create runtime (first_request (tools (this t)) "add 2 and 3") (world t))
    = answer None (Some [bad_call])
  ∧ length (requests (since t t')) = 1%nat
  ∧ invocations (since t t') = [].
Proof. vm_compute. repeat split. Qed.

(** The session of the sum: two rounds and the one invocation of [add]. *)
Lemma processQuery_contacts_witness :
  let s := connected sum_script in
  let s' := snd (processQuery runtime "add 2 and 3" s) in
  length (requests (since s s')) = 2%nat
  ∧ map fst (invocations (since s s')) = ["add"]
  ∧ Forall2 (fun tc inv => Json.parse (arguments tc) = Some (snd inv))
            [add_call] (invocations (since s s')).
Proof.
  exact (processQuery_contacts runtime "add 2 and 3" (connected sum_script)
           _ _ _ _ eq_refl eq_refl _ _ eq_refl).
Defined.

(** The empty batch: the second round on two messages. *)
Lemma empty_tool_calls_second_round_witness :
  let s := connected empty_batch_script in
  let s' := snd (processQuery runtime "hello" s) in
  requests (since s s') =
    [first_request [] "hello";
     mkCompletionRequest "gpt-4o" 1000
       [UserMessage "hello"; AssistantMessage "hi" []] None]
  ∧ invocations (since s s') = [].
Proof.
  exact (empty_tool_calls_second_round runtime "hello" (connected empty_batch_script)
           _ _ _ _ eq_refl eq_refl eq_refl).
Defined.

(** C2.  The text of every query that returns is the newline-join of the
    content of the first response (if any), one trace line
    "[Calling tool <name> with args <json>]" per tool call in the order of
    the requests, and the content of the second response (if any).  In the
    session of the sum (one tool [add]; the model asks for [add] on
    [{"a": 2, "b": 3}] without content, the tool answers 5, the model then
    says "The sum is 5") the text is the trace line of [add], a line feed and
    "The sum is 5". *)
Theorem processQuery_text :
  (∀ (W : Type) (rt : Runtime W) query (s : State W) text s',
     processQuery rt query s = (Return text, s') →
     ∃ req1 resp1 c1 cs1,
       choices resp1 = c1 :: cs1
       ∧ match tool_calls (message c1) with
         | None =>
           exchanges (since s s') = [(req1, inr resp1)]
           ∧ text = String.concat LF (text_of (content (message c1)))
         | Some toolCalls =>
           ∃ argsl req2 resp2 c2 cs2,
             exchanges (since s s') = [(req1, inr resp1); (req2, inr resp2)]
             ∧ choices resp2 = c2 :: cs2
             ∧ Forall2 (fun tc args => JSON_parse rt (arguments tc) = Some args)
                       toolCalls argsl
             ∧ text = String.concat LF
                        (text_of (content (message c1))
                         ++ zip_with (fun tc args => trace_line rt (call_name tc) args)
                                     toolCalls argsl
                         ++ text_of (content (message c2)))
         end)
  ∧ fst (processQuery runtime "add 2 and 3" (connected sum_script))
    = Return ("[Calling tool add with args {" +:+ Json.DQ +:+ "a" +:+ Json.DQ +:+ ":2,"
                +:+ Json.DQ +:+ "b" +:+ Json.DQ +:+ ":3}]" +:+ LF +:+ "The sum is 5").
Proof.
  split.
  - intros W rt query s text s' H. exact (processQuery_returns rt query s text s' H).
  - vm_compute. reflexivity.
Qed.

(** The greeting: one round, the text is the content of the response. *)
Lemma processQuery_text_witness :
  let s := connected greeting_script in
  ∃ req1 resp1 c1 cs1,
    choices resp1 = c1 :: cs1
    ∧ match tool_calls (message c1) with
      | None =>
        exchanges (since s (snd (processQuery runtime "hello" s))) = [(req1, inr resp1)]
        ∧ "hi" = String.concat LF (text_of (content (message c1)))
      | Some toolCalls =>
        ∃ argsl req2 resp2 c2 cs2,
          exchanges (since s (snd (processQuery runtime "hello" s)))
          = [(req1, inr resp1); (req2, inr resp2)]
          ∧ choices resp2 = c2 :: cs2
          ∧ Forall2 (fun tc args => Json.parse (arguments tc) = Some args) toolCalls argsl
          ∧ "hi" = String.concat LF
                     (text_of (content (message c1))
                      ++ zip_with (fun tc args => trace_line runtime (call_name tc) args)
                                  toolCalls argsl
                      ++ text_of (content (message c2)))
      end.
Proof.
  exact (proj1 processQuery_text Script runtime "hello" (connected greeting_script)
           "hi" (snd (processQuery runtime "hello" (connected greeting_script))) eq_refl).
Defined.

(** The session without tools sends no tools field. *)
Lemma tools_field_of_session_witness :
  ∃ discovered specs,
    discoveries (since (start greeting_script) (connected greeting_script))
    = [inr discovered]
    ∧ adapt_all discovered = inr specs
    ∧ req_tools (first_request [] "hello")
      = match discovered with [] => None | _ :: _ => Some specs end.
Proof.
  apply (tools_field_of_session runtime "server.py" (start greeting_script)
           (connected greeting_script) "hello" (connected greeting_script)).
  - reflexivity.
  - reflexivity.
  - vm_compute. left. reflexivity.
Defined.

(** A bad payload between two good requests: [add] runs once, then the
    parse error. *)
Lemma bad_arguments_abort_witness :
  let s := connected late_bad_arguments_script in
  let o := fst (processQuery runtime "add 2 and 3" s) in
  let s' := snd (processQuery runtime "add 2 and 3" s) in
  (∃ e, o = Throw e)
  ∧ requests (since s s') = [first_request (tools (this s)) "add 2 and 3"]
  ∧ map fst (invocations (since s s')) `prefix_of` ["add"]
  ∧ o = Throw (SyntaxError "{a:2")
  ∧ map fst (invocations (since s s')) = ["add"].
Proof.
  destruct (bad_arguments_abort runtime "add 2 and 3" (connected late_bad_arguments_script)
              _ _ _ _ [add_call] bad_call [add_call] eq_refl eq_refl eq_refl eq_refl)
    as (Hfails & Hrequests & Hprefix & Hserved).
  split; [exact Hfails|]. split; [exact Hrequests|]. split; [exact Hprefix|].
  exact (Hserved _ _ eq_refl).
Defined.

(** C6, counterexample.  In the session of the sum the tool is invoked at
    the third step of the query, nothing has been appended to the output-text
    sequence by then, and the trace line is appended at the fourth.  When the
    server fails, the tool has been invoked and the output-text sequence is
    still empty. *)
Lemma tool_invoked_before_trace_line :
  let s := connected sum_script in
  let s' := snd (processQuery runtime "add 2 and 3" s) in
  let t := connected failing_tool_script in
  let t' := snd (processQuery runtime "add 2 and 3" t) in
  since s s' !! 2%nat
  = Some (EvCallTool "add" (JObj [("a", JNum 2); ("b", JNum 3)]) (inr five))
  ∧ since s s' !! 3%nat = Some (EvPush 0%nat add_trace)
  ∧ (∀ i array text, (i < 3)%nat → since s s' !! i ≠ Some (EvPush array text))
  ∧ invocations (since t t') = [("add", JObj [("a", JNum 2); ("b", JNum 3)])]
  ∧ heap t' = [[]].
Proof.
  vm_compute. repeat split.
  intros i array text Hi.
  destruct i as [|[|[|i]]]; [discriminate..|lia].
Qed.

(** The batch of the session of the sum. *)
Lemma trace_line_follows_invocation_witness :
  let s := connected sum_script in
  let o := fst (callTools runtime [add_call] 0%nat s) in
  let s' := snd (callTools runtime [add_call] 0%nat s) in
  ∃ done rest,
    [add_call] = map served_call done ++ rest
    ∧ (∀ results, o = Return results → rest = [])
    ∧ (∃ last,
         since s s' =
         flat_map (fun d : Served =>
                     let '(tc, args, res) := d in
                     [EvConsole [LStr (call_line runtime (call_name tc) args)];
                      EvCallTool (call_name tc) args (inr res);
                      EvPush 0%nat (trace_line runtime (call_name tc) args)]) done
         ++ last
         ∧ ∀ array text, ¬ In (EvPush array text) last)
    ∧ heap s' =
      pushed 0%nat
             (map (fun d : Served =>
                     let '(tc, args, _) := d in trace_line runtime (call_name tc) args) done)
             (heap s).
Proof.
  exact (trace_line_follows_invocation runtime [add_call] 0%nat (connected sum_script)).
Defined.

(** C7, counterexample.  The first line makes [processQuery] raise a parse
    error; [chatLoop] ends with that error, the readline interface closed, and
    the second line is never read. *)
Lemma chatLoop_stops_on_error :
  let s := connected bad_arguments_script in
  let r := chatLoop runtime ["add 2 and 3"; "hello"] s in
  fst r = Throw (SyntaxError "{a:2")
  ∧ questions (since s (snd r)) = ["add 2 and 3"]
  ∧ last (since s (snd r)) = Some EvRlClose.
Proof. vm_compute. repeat split. Qed.

(** The same session through the lemma on the first line. *)
Lemma chatLoop_error_ends_loop_witness :
  let s := connected bad_arguments_script in
  let s1 := snd (processQuery runtime "add 2 and 3"
                   (snd (emit (EvQuestion prompt "add 2 and 3") s))) in
  chatLoop runtime ["add 2 and 3"; "hello"] s =
  (Throw (SyntaxError "{a:2"),
   mkState (this s1) (heap s1) (world s1) (history s1 ++ [EvRlClose])).
Proof.
  apply (chatLoop_error_ends_loop runtime "add 2 and 3" ["hello"]
           (connected bad_arguments_script)).
  - vm_compute. discriminate.
  - reflexivity.
Defined.

(** The session of the sum leaves the client as it was. *)
Lemma processQuery_fresh_messages_witness :
  let s := connected sum_script in
  let s' := snd (processQuery runtime "add 2 and 3" s) in
  this s' = this s
  ∧ (∃ res rest,
       since s s' =
       EvCreate (mkCompletionRequest "gpt-4o" 1000 [UserMessage "add 2 and 3"]
                                     (tools_field (tools (this s)))) res :: rest)
  ∧ ∃ more, messages (first_request (tools (this s)) "add 2 and 3")
            = UserMessage "add 2 and 3" :: more
            ∧ ∀ text, ¬ In (UserMessage text) more.
Proof.
  destruct (processQuery_fresh_messages runtime "add 2 and 3" (connected sum_script))
    as (Hthis & Hfirst & Hall).
  split; [exact Hthis|]. split; [exact Hfirst|].
  apply Hall. vm_compute. left. reflexivity.
Defined.

(** The second request of the session of the sum. *)
Lemma tool_messages_follow_calls_witness :
  ∃ text toolCalls toolMessages,
    [UserMessage "add 2 and 3";
     AssistantMessage "" [add_call];
     ToolMessage (Json.stringify (result_content five)) "call_1"]
    = [UserMessage "add 2 and 3"; AssistantMessage text toolCalls] ++ toolMessages
    ∧ Forall2 (fun m tc => ∃ c, m = ToolMessage c (call_id tc)) toolMessages toolCalls.
Proof.
  apply (tool_messages_follow_calls runtime "add 2 and 3" (connected sum_script)
           (first_request (tools (this (connected sum_script))) "add 2 and 3")
           (mkCompletionRequest "gpt-4o" 1000
              [UserMessage "add 2 and 3";
               AssistantMessage "" [add_call];
               ToolMessage (Json.stringify (result_content five)) "call_1"]
              (tools_field (tools (this (connected sum_script)))))
           []).
  vm_compute. reflexivity.
Defined.

(** ** More on the schema adapter *)

(** X1.  The adapter throws exactly on a null schema, and then a TypeError. *)
Theorem openAiToolAdapter_throws_on_null (tool : ToolDescriptor) :
  match openAiToolAdapter tool with
  | inl e => input_schema tool = JNull ∧ ∃ what, e = TypeError what
  | inr _ => input_schema tool ≠ JNull
  end.
Proof.
  unfold openAiToolAdapter.
  destruct (input_schema tool); simpl; try discriminate.
  split; [done|by eexists].
Qed.

(** X2.  On a schema that is an object the adapter keeps the name, sets the
    two type tags, copies a non-empty description and truthy [properties]
    and [required] values as they are, whatever they are, and replaces an
    empty description and falsy [properties] and [required] values by the
    defaults. *)
Theorem openAiToolAdapter_fields (tool : ToolDescriptor) fields :
  input_schema tool = JObj fields →
  ∃ spec,
    openAiToolAdapter tool = inr spec
    ∧ tool_type spec = "function"
    ∧ fn_name (tool_function spec) = name tool
    ∧ param_type (parameters (tool_function spec)) = "object"
    ∧ (∀ d, description tool = Some d →
            fn_description (tool_function spec)
            = if String.eqb d "" then "Tool: " +:+ name tool else d)
    ∧ (∀ p, lookup_field "properties" fields = Some p →
            properties (parameters (tool_function spec))
            = if truthy p then p else JObj [])
    ∧ (∀ r, lookup_field "required" fields = Some r →
            required (parameters (tool_function spec))
            = if truthy r then r else JArr []).
Proof.
  intros Hschema. unfold openAiToolAdapter. rewrite Hschema. simpl.
  eexists. split; [reflexivity|]. simpl.
  repeat split; [intros d ->|intros p ->|intros r ->]; done.
Qed.

(** A schema whose [properties] is a string and whose [required] is 0. *)
Lemma openAiToolAdapter_fields_witness :
  ∃ spec,
    openAiToolAdapter
      (mkToolDescriptor "echo" (Some "")
         (JObj [("properties", JStr "anything"); ("required", JNum 0)]))
    = inr spec
    ∧ fn_description (tool_function spec) = "Tool: echo"
    ∧ properties (parameters (tool_function spec)) = JStr "anything"
    ∧ required (parameters (tool_function spec)) = JArr [].
Proof.
  destruct (openAiToolAdapter_fields
              (mkToolDescriptor "echo" (Some "")
                 (JObj [("properties", JStr "anything"); ("required", JNum 0)]))
              _ eq_refl)
    as (spec & Hspec & _ & _ & _ & Hdescription & Hproperties & Hrequired).
  exists spec. split; [exact Hspec|]. split; [exact (Hdescription _ eq_refl)|].
  split; [exact (Hproperties _ eq_refl) | exact (Hrequired _ eq_refl)].
Defined.

(** X3.  A schema that is neither null nor an object (a boolean, a number, a
    string, an array) is accepted: the adapter answers the empty mapping and
    the empty list. *)
Theorem openAiToolAdapter_primitive_schema (tool : ToolDescriptor) :
  input_schema tool ≠ JNull →
  (∀ fields, input_schema tool ≠ JObj fields) →
  ∃ spec,
    openAiToolAdapter tool = inr spec
    ∧ properties (parameters (tool_function spec)) = JObj []
    ∧ required (parameters (tool_function spec)) = JArr [].
Proof.
  intros Hnull Hobject. unfold openAiToolAdapter.
  destruct (input_schema tool) as [| | | | |fields]; simpl;
    try (eexists; split; [reflexivity|done]).
  - done.
  - by destruct (Hobject fields).
Qed.

(** A schema that is an array. *)
Lemma openAiToolAdapter_primitive_schema_witness :
  ∃ spec,
    openAiToolAdapter (mkToolDescriptor "echo" None (JArr [JStr "a"])) = inr spec
    ∧ properties (parameters (tool_function spec)) = JObj []
    ∧ required (parameters (tool_function spec)) = JArr [].
Proof.
  apply (openAiToolAdapter_primitive_schema (mkToolDescriptor "echo" None (JArr [JStr "a"]))).
  - simpl. discriminate.
  - simpl. discriminate.
Defined.

(** ** Mapping the adapter over the discovered tools *)

(** X4.  The map over the discovered tools succeeds exactly when the adapter
    succeeds on each of them, and its result holds the adapter's results, one
    per tool and in the order of discovery. *)
Theorem adapt_all_maps (discovered : list McpTool) (specs : list OpenAiTool) :
  adapt_all discovered = inr specs
  ↔ Forall2 (fun tool spec =>
               openAiToolAdapter
                 (mkToolDescriptor (mcp_name tool) (mcp_description tool) (inputSchema tool))
               = inr spec)
            discovered specs.
Proof.
  revert specs. induction discovered as [|tool rest IH]; intros specs; simpl.
  - split; [intros H; inversion H; constructor | by inversion 1].
  - destruct (openAiToolAdapter _) as [e|spec] eqn:Hspec.
    + split; [done|]. inversion 1; congruence.
    + destruct (adapt_all rest) as [e|specs'] eqn:Hrest.
      * split; [done|]. inversion 1; subst.
        match goal with H : Forall2 _ rest _ |- _ => apply IH in H; discriminate H end.
      * split.
        -- intros H. inversion H; subst. constructor; [done|by apply IH].
        -- inversion 1; subst.
           match goal with H : Forall2 _ rest _ |- _ => apply IH in H; congruence end.
Qed.

Lemma adapter_fails_on_null (tool : ToolDescriptor) :
  match openAiToolAdapter tool with
  | inl _ => input_schema tool = JNull
  | inr _ => input_schema tool ≠ JNull
  end.
Proof. unfold openAiToolAdapter. destruct (input_schema tool); simpl; done. Qed.

(** X5.  The map fails exactly when one of the discovered tools has a null
    schema: one such tool is enough to lose the whole list. *)
Theorem adapt_all_fails_on_null (discovered : list McpTool) :
  (∃ e, adapt_all discovered = inl e)
  ↔ Exists (fun tool => inputSchema tool = JNull) discovered.
Proof.
  induction discovered as [|tool rest IH]; simpl.
  - split; [by intros [e H]|by inversion 1].
  - pose proof (adapter_fails_on_null
                  (mkToolDescriptor (mcp_name tool) (mcp_description tool) (inputSchema tool)))
      as Hnull.
    destruct (openAiToolAdapter _) as [e|spec]; simpl in Hnull.
    + split; [intros _; by left|by eexists].
    + destruct (adapt_all rest) as [e|specs].
      * split; [intros _; right; apply IH; by eexists|by eexists].
      * split; [by intros [e H]|].
        inversion 1; subst; [done|].
        match goal with H : Exists _ rest |- _ => apply IH in H; by destruct H end.
Qed.

(** ** The extension test of [connectToServer] *)

Lemma length_append (a b : string) :
  String.length (a +:+ b) = (String.length a + String.length b)%nat.
Proof. induction a as [|c a IH]; simpl; [done|by rewrite IH]. Qed.

Lemma substring_all (s : string) : String.substring 0 (String.length s) s = s.
Proof. induction s as [|c s IH]; simpl; [done|by rewrite IH]. Qed.

Lemma substring_skip (pre s : string) (m : nat) :
  String.substring (String.length pre) m (pre +:+ s) = String.substring 0 m s.
Proof. induction pre as [|c pre IH]; simpl; done. Qed.

Lemma substring_split (n : nat) (s : string) :
  (n ≤ String.length s)%nat →
  s = String.substring 0 n s +:+ String.substring n (String.length s - n) s.
Proof.
  revert s. induction n as [|n IH]; intros s Hn.
  - rewrite Nat.sub_0_r, substring_all. by destruct s.
  - destruct s as [|c s]; simpl in *; [lia|].
    transitivity (String c (String.substring 0 n s
                              +:+ String.substring n (String.length s - n) s));
      [f_equal; apply IH; lia | reflexivity].
Qed.

(** [s.endsWith(suffix)] holds exactly of the strings that end in [suffix]. *)
Lemma endsWith_spec (s suffix : string) :
  endsWith s suffix = true ↔ ∃ pre, s = pre +:+ suffix.
Proof.
  unfold endsWith. split.
  - intros H. apply andb_true_iff in H as [Hlen Heq].
    apply Nat.leb_le in Hlen. apply String.eqb_eq in Heq.
    exists (String.substring 0 (String.length s - String.length suffix) s).
    pose proof (substring_split (String.length s - String.length suffix) s) as Hsplit.
    replace (String.length s - (String.length s - String.length suffix))%nat
      with (String.length suffix) in Hsplit by lia.
    rewrite Heq in Hsplit. apply Hsplit. lia.
  - intros [pre ->]. rewrite length_append. apply andb_true_iff. split.
    + apply Nat.leb_le. lia.
    + replace (String.length pre + String.length suffix - String.length suffix)%nat
        with (String.length pre) by lia.
      rewrite substring_skip, substring_all. apply String.eqb_refl.
Qed.

Lemma endsWith_same_length (pre a b : string) :
  String.length a = String.length b →
  endsWith (pre +:+ a) b = String.eqb a b.
Proof.
  intros Hlen. unfold endsWith. rewrite length_append, <- Hlen.
  replace (String.length a <=? String.length pre + String.length a)%nat with true
    by (symmetry; apply Nat.leb_le; lia).
  replace (String.length pre + String.length a - String.length a)%nat
    with (String.length pre) by lia.
  by rewrite substring_skip, substring_all.
Qed.

Section Connection.

Context {W : Type} (rt : Runtime W).

Implicit Types (s : State W).

(** The runs of [connectToServer]: the extension is refused, the discovery
    fails, the adapter throws, or the session gets its tools. *)
Lemma connectToServer_run path s :
  connectToServer rt path s =
  let failed := fun (e : Error) (t : MCPClient) (w : W) (events : list Event) =>
    (Throw e : Outcome unit,
     mkState t (heap s) w
       (history s ++ events
          ++ [EvConsole [LStr "Failed to connect to MCP server: "; LErr e]])) in
  if negb (endsWith path ".js") && negb (endsWith path ".py")
  then failed (PlainError "Server script must be a .js or .py file") (this s) (world s) []
  else
    let t := mkTransport (server_command rt (endsWith path ".py")) [path] in
    let client := mkMCPClient (tools (this s)) (Some t) in
    match mcp_listTools rt (mcp_connect rt t (world s)) with
    | (inl msg, w) => failed (McpError msg) client w [EvConnect t; EvListTools (inl msg)]
    | (inr discovered, w) =>
      match adapt_all discovered with
      | inl e => failed e client w [EvConnect t; EvListTools (inr discovered)]
      | inr specs =>
        (Return tt,
         mkState (mkMCPClient specs (Some t)) (heap s) w
           (history s
              ++ [EvConnect t; EvListTools (inr discovered);
                  EvConsole [LStr "Connected to server with tools:";
                             LNames (map (fun spec => fn_name (tool_function spec)) specs)]]))
      end
    end.
Proof.
  unfold connectToServer, try_catch, server_command.
  unfold mbind at 1. unfold M_bind at 1.
  destruct (negb (endsWith path ".js") && negb (endsWith path ".py")); simpl.
  { unfold mbind, M_bind. simpl. by destruct s. }
  unfold mbind, M_bind, set_transport, connect, listTools. simpl.
  destruct (mcp_listTools rt _) as [[msg|discovered] w]; simpl.
  { by rewrite <- !app_assoc. }
  unfold lift. destruct (adapt_all discovered) as [e|specs]; simpl;
    by rewrite <- !app_assoc.
Qed.

(** X6.  A path that ends neither in ".js" nor in ".py" is refused before
    anything is started: the error is logged and thrown, and neither the
    session nor the world has changed. *)
Theorem connectToServer_refuses_extension path s :
  (∀ pre, path ≠ pre +:+ ".js") →
  (∀ pre, path ≠ pre +:+ ".py") →
  connectToServer rt path s =
  (Throw (PlainError "Server script must be a .js or .py file"),
   mkState (this s) (heap s) (world s)
     (history s
        ++ [EvConsole [LStr "Failed to connect to MCP server: ";
                       LErr (PlainError "Server script must be a .js or .py file")]])).
Proof.
  intros Hjs Hpy. rewrite connectToServer_run. cbv zeta.
  destruct (endsWith path ".js") eqn:Ejs.
  { apply endsWith_spec in Ejs as [pre ->]. by destruct (Hjs pre). }
  destruct (endsWith path ".py") eqn:Epy.
  { apply endsWith_spec in Epy as [pre ->]. by destruct (Hpy pre). }
  done.
Qed.

(** X7.  A path that ends in ".py" starts the server with python3, or with
    python on win32, and a path that ends in ".js" with the executable of the
    running process; in both cases on the path alone, and the handle stays in
    the session however the connection goes on. *)
Theorem connectToServer_starts_server path pre s :
  path = pre +:+ ".py" ∨ path = pre +:+ ".js" →
  let s' := snd (connectToServer rt path s) in
  let python := if String.eqb (process_platform rt) "win32" then "python" else "python3" in
  ∃ command rest,
    transport (this s') = Some (mkTransport command [path])
    ∧ since s s' = EvConnect (mkTransport command [path]) :: rest
    ∧ (path = pre +:+ ".py" → command = python)
    ∧ (path = pre +:+ ".js" → command = process_execPath rt).
Proof.
  intros Hpath s' python. subst s' python.
  assert (Hnot : negb (endsWith path ".js") && negb (endsWith path ".py") = false).
  { destruct Hpath as [->| ->]; rewrite !endsWith_same_length by done; done. }
  rewrite connectToServer_run. cbv zeta. rewrite Hnot.
  exists (server_command rt (endsWith path ".py")).
  assert (Hcommand :
    (path = pre +:+ ".py" → server_command rt (endsWith path ".py")
       = if String.eqb (process_platform rt) "win32" then "python" else "python3")
    ∧ (path = pre +:+ ".js" → server_command rt (endsWith path ".py") = process_execPath rt)).
  { split; intros ->; by rewrite endsWith_same_length. }
  destruct (mcp_listTools rt _) as [[msg|discovered] w];
    [|destruct (adapt_all discovered) as [e|specs]];
    eexists; (split; [done|]); (split; [|exact Hcommand]);
    apply since_app; simpl; by rewrite <- ?app_assoc.
Qed.

Lemma adapt_all_names (discovered : list McpTool) (specs : list OpenAiTool) :
  adapt_all discovered = inr specs →
  map (fun spec => fn_name (tool_function spec)) specs = map mcp_name discovered.
Proof.
  revert specs. induction discovered as [|tool rest IH]; intros specs H; simpl in H.
  - by inversion H.
  - unfold openAiToolAdapter in H. simpl in H.
    destruct (get_prop (inputSchema tool) "properties") as [e|props]; [done|].
    destruct (get_prop (inputSchema tool) "required") as [e|req]; [done|].
    destruct (adapt_all rest) as [e|specs']; [done|].
    inversion H; subst. simpl. by rewrite (IH specs' eq_refl).
Qed.

(** X8.  A connection that fails has logged the error it throws as the last
    thing it did, and leaves the tool list of the session as it was. *)
Theorem connectToServer_failure path s e s' :
  connectToServer rt path s = (Throw e, s') →
  tools (this s') = tools (this s)
  ∧ last (history s')
    = Some (EvConsole [LStr "Failed to connect to MCP server: "; LErr e])
  ∧ requests (since s s') = []
  ∧ invocations (since s s') = [].
Proof.
  rewrite connectToServer_run. cbv zeta.
  destruct (negb (endsWith path ".js") && negb (endsWith path ".py")).
  { intros [= <- <-]. cbn [history this tools].
    rewrite last_app, !since_mk. done. }
  destruct (mcp_listTools rt _) as [[msg|discovered] w];
    [|destruct (adapt_all discovered) as [e'|specs]];
    intros [= <- <-] || intros [=]; cbn [history this tools];
    rewrite last_app, !since_mk; done.
Qed.

(** X9.  A connection that succeeds has made one discovery; the session's
    tools bear the names of the discovered tools, in the order of discovery,
    whatever tools the session had before; these names are the last thing
    logged; and the path ends in ".js" or ".py". *)
Theorem connectToServer_success path s s' :
  connectToServer rt path s = (Return tt, s') →
  ∃ discovered,
    discoveries (since s s') = [inr discovered]
    ∧ map (fun spec => fn_name (tool_function spec)) (tools (this s'))
      = map mcp_name discovered
    ∧ last (history s')
      = Some (EvConsole [LStr "Connected to server with tools:";
                         LNames (map mcp_name discovered)])
    ∧ ∃ pre, path = pre +:+ ".js" ∨ path = pre +:+ ".py".
Proof.
  rewrite connectToServer_run. cbv zeta.
  destruct (endsWith path ".js") eqn:Ejs; [|destruct (endsWith path ".py") eqn:Epy];
    simpl; [| |discriminate].
  all: destruct (mcp_listTools rt _) as [[msg|discovered] w]; [discriminate|].
  all: destruct (adapt_all discovered) as [e'|specs] eqn:Hadapt; [discriminate|].
  all: intros [= <-]; cbn [history this tools].
  all: exists discovered; rewrite since_mk, (adapt_all_names _ _ Hadapt).
  all: split; [done|]; split; [done|]; split;
         [by rewrite last_app|].
  - apply endsWith_spec in Ejs as [pre ->]. exists pre. by left.
  - apply endsWith_spec in Epy as [pre ->]. exists pre. by right.
Qed.

End Connection.

(** ** More on [processQuery] and [callTools] *)

(** The observations on the events of a run, once more, for the proofs that
    follow. *)
Ltac read_events :=
  cbn [fst snd]; rewrite <- ?app_assoc; rewrite ?since_mk;
  repeat first
    [ rewrite requests_app | rewrite requests_create | rewrite requests_pushes
    | rewrite requests_served | rewrite requests_stop | rewrite requests_nil
    | rewrite exchanges_app | rewrite exchanges_create | rewrite exchanges_pushes
    | rewrite exchanges_served | rewrite exchanges_stop | rewrite exchanges_nil
    | rewrite invocations_app | rewrite invocations_create
    | rewrite invocations_pushes | rewrite invocations_served
    | rewrite invocations_stop | rewrite invocations_nil ];
  rewrite ?app_nil_r; cbn [app].

Ltac split_run rt s :=
  rewrite processQuery_run; cbv zeta;
  destruct (openai_create rt _ (world s)) as [[err|resp1] w1] eqn:Hcreate;
  [| destruct (choices resp1) as [|c1 cs1] eqn:Hchoices;
     [| destruct (tool_calls (message c1)) as [toolCalls|] eqn:Hcalls;
        [ destruct (serve rt toolCalls w1) as [[done stop] w2] eqn:Hserve;
          destruct stop as [|badCall|failedCall failedArgs failure];
          [ destruct (openai_create rt _ w2) as [[err|resp2] w3] eqn:Hcreate2;
            [| destruct (choices resp2) as [|c2 cs2] eqn:Hchoices2 ] | | ]
        | ] ] ].

Section Rounds.

Context {W : Type} (rt : Runtime W).

Implicit Types (s : State W).

(** X10.  [processQuery] always settles; it never calls the Completion
    Client more than twice; and the tools it invokes are the first ones of the
    batch of the first response, in their order: the tool calls that a second
    response carries are not carried out. *)
Theorem processQuery_bounded query s :
  let r := processQuery rt query s in
  fst r ≠ Pending
  ∧ (length (requests (since s (snd r))) ≤ 2)%nat
  ∧ ∀ req resp c cs rest,
      exchanges (since s (snd r)) = (req, inr resp) :: rest →
      choices resp = c :: cs →
      map fst (invocations (since s (snd r)))
        `prefix_of` map call_name (default [] (tool_calls (message c))).
Proof.
  intros r. subst r.
  assert (Hdone : ∀ toolCalls w1 done stop w2,
            serve rt toolCalls w1 = (done, stop, w2) →
            map fst (map (fun d => (call_name (served_call d), served_args d)) done
                       ++ invocations (stop_events rt stop))
              `prefix_of` map call_name toolCalls).
  { intros toolCalls w1 done stop w2 Hserve.
    destruct (serve_prefix rt _ _ _ _ _ Hserve) as (rest & -> & _ & Hstop).
    rewrite !map_app, !map_map. apply prefix_app.
    destruct stop as [|badCall|failedCall failedArgs failure]; simpl.
    - apply prefix_nil.
    - apply prefix_nil.
    - destruct Hstop as (rest' & -> & _). apply prefix_cons, prefix_nil. }
  split_run rt s; (split; [done|]); read_events; (split; [simpl; lia|]);
    intros req resp c cs rest H Hc; inversion H; subst;
    rewrite ?Hchoices in Hc; inversion Hc; subst; rewrite ?Hcalls; simpl;
    try apply prefix_nil;
    pose proof (Hdone _ _ _ _ _ Hserve) as Hprefix;
    rewrite invocations_stop, ?app_nil_r in Hprefix; exact Hprefix.
Qed.

(** X11.  The four ways [processQuery] fails: the Completion Client rejected
    the call just made; the response just received has no choice; a payload
    of the batch of the first response is not valid JSON, and then the
    Completion Client has been called once; a tool invocation just failed. *)
Theorem processQuery_errors query s e s' :
  processQuery rt query s = (Throw e, s') →
  (∃ req msg, e = APIError msg ∧ last (since s s') = Some (EvCreate req (inl msg)))
  ∨ (e = no_choice
     ∧ ∃ req resp, last (since s s') = Some (EvCreate req (inr resp)) ∧ choices resp = [])
  ∨ (∃ req resp c cs toolCalls toolCall,
       e = SyntaxError (arguments toolCall)
       ∧ JSON_parse rt (arguments toolCall) = None
       ∧ exchanges (since s s') = [(req, inr resp)]
       ∧ choices resp = c :: cs
       ∧ tool_calls (message c) = Some toolCalls
       ∧ In toolCall toolCalls)
  ∨ (∃ tool args msg,
       e = McpError msg ∧ last (since s s') = Some (EvCallTool tool args (inl msg))).
Proof.
  split_run rt s; intros [= <- <-] || intros [=]; rewrite <- ?app_assoc, since_mk.
  - left. eexists _, _. by split.
  - right. left. split; [done|]. eexists _, _. by split.
  - left. eexists _, _. split; [done|]. by rewrite !last_app.
  - right. left. split; [done|]. eexists _, _. split; [by rewrite !last_app|done].
  - right. right. left.
    destruct (serve_prefix rt _ _ _ _ _ Hserve) as (rest & -> & _ & rest' & -> & Hbad).
    eexists _, resp1, c1, cs1, _, badCall.
    split; [done|]. split; [done|]. split; [by read_events|].
    split; [done|]. split; [done|].
    apply in_or_app. right. by left.
  - right. right. right. eexists _, _, _. split; [done|]. by rewrite !last_app.
Qed.

(** X12.  A tool invocation that fails is the last thing [processQuery]
    does: its error is thrown, no other tool is invoked after it and the
    Completion Client is not called again. *)
Theorem failed_invocation_ends_query query s tool args msg :
  let r := processQuery rt query s in
  In (EvCallTool tool args (inl msg)) (since s (snd r)) →
  fst r = Throw (McpError msg)
  ∧ last (since s (snd r)) = Some (EvCallTool tool args (inl msg))
  ∧ length (requests (since s (snd r))) = 1%nat.
Proof.
  intros r. subst r.
  assert (Hpush : ∀ a lines, ¬ In (EvCallTool tool args (inl msg)) (map (EvPush a) lines)).
  { intros a lines. induction lines as [|line lines IH]; simpl; [tauto|].
    intros [H|H]; [discriminate H|tauto]. }
  assert (Hserved : ∀ a done,
            ¬ In (EvCallTool tool args (inl msg)) (flat_map (served_events rt a) done)).
  { intros a done. induction done as [|d done IH]; simpl; [tauto|].
    intros [H|[H|[H|H]]]; [discriminate H..|tauto]. }
  split_run rt s; cbn [fst snd]; rewrite <- ?app_assoc, since_mk; intros Hin;
    repeat (apply in_app_or in Hin as [Hin|Hin]);
    try (by apply Hpush in Hin); try (by apply Hserved in Hin);
    try (simpl in Hin; destruct Hin as [Hin|Hin]; [discriminate Hin|]);
    try (by destruct Hin).
  simpl in Hin. destruct Hin as [[= <- <- <-]|[]].
  split; [done|]. split; [by rewrite !last_app|]. by read_events.
Qed.

Lemma answers_served a (done : list Served) :
  answers (flat_map (served_events rt a) done)
  = map (fun d => inr (served_result d)) done.
Proof.
  induction done as [|d done IH]; [done|].
  cbn [flat_map map]. unfold answers in *. by rewrite flat_map_app, IH.
Qed.

(** X13.  When [callTools] returns, it returns one result per request, in
    the order of the requests, each under the id of its request and holding
    what the server answered to the invocation made for it. *)
Theorem callTools_results toolCalls finalText s results s' :
  callTools rt toolCalls finalText s = (Return results, s') →
  map toolCallId results = map call_id toolCalls
  ∧ map (fun r => inr (result r)) results = answers (since s s')
  ∧ map fst (invocations (since s s')) = map call_name toolCalls.
Proof.
  unfold callTools. rewrite callTools_loop_run.
  destruct (serve rt toolCalls (world s)) as [[done stop] w2] eqn:Hserve.
  destruct stop; simpl; [|discriminate..].
  intros [= <- <-]. rewrite app_nil_r, since_mk, answers_served, invocations_served.
  destruct (serve_completed rt _ _ _ _ Hserve) as [<- _].
  rewrite !map_map. done.
Qed.

End Rounds.

(** ** More on [chatLoop] *)

Section Loop.

Context {W : Type} (rt : Runtime W).

Implicit Types (s : State W).

Lemma questions_app (tr tr' : list Event) :
  questions (tr ++ tr') = questions tr ++ questions tr'.
Proof. apply flat_map_app. Qed.

Lemma questions_pushes (a : loc) lines : questions (map (EvPush a) lines) = [].
Proof. by induction lines. Qed.

Lemma questions_served (a : loc) (done : list Served) :
  questions (flat_map (served_events rt a) done) = [].
Proof. by induction done. Qed.

Lemma questions_stop stop : questions (stop_events rt stop) = [].
Proof. by destruct stop. Qed.

(** A query settles, only adds to the history, and asks nothing at the
    prompt. *)
Lemma processQuery_asks_nothing query s :
  fst (processQuery rt query s) ≠ Pending
  ∧ ∃ delta,
      history (snd (processQuery rt query s)) = history s ++ delta
      ∧ questions delta = []
      ∧ ∃ res rest, delta = EvCreate (first_request (tools (this s)) query) res :: rest.
Proof.
  split_run rt s; (split; [done|]); cbn [snd history]; rewrite <- ?app_assoc;
    eexists; (split; [reflexivity|]);
    (split; [|by eexists _, _]);
    rewrite ?questions_app, ?questions_pushes, ?questions_served, ?questions_stop; done.
Qed.

Lemma chatLoop_while_cons query rest s :
  chatLoop_while rt (query :: rest) s =
  let s0 := mkState (this s) (heap s) (world s)
                    (history s ++ [EvQuestion prompt query]) in
  if String.eqb query "exit" then (Return tt, s0)
  else
    match processQuery rt query s0 with
    | (Return text, s1) =>
      chatLoop_while rt rest
        (mkState (this s1) (heap s1) (world s1)
           (history s1 ++ [EvConsole [LStr (LF +:+ "Response:")]; EvConsole [LStr text]]))
    | (Throw e, s1) => (Throw e, s1)
    | (Pending, s1) => (Pending, s1)
    end.
Proof.
  simpl. unfold mbind at 1. unfold M_bind at 1. simpl.
  destruct (String.eqb query "exit"); [done|].
  unfold mbind at 1. unfold M_bind at 1.
  destruct (processQuery rt query _) as [[text|e|] s1]; [|done..].
  unfold mbind, M_bind. simpl. by rewrite <- app_assoc.
Qed.

Lemma chatLoop_while_reads lines s o s' :
  chatLoop_while rt lines s = (o, s') →
  ∃ delta,
    history s' = history s ++ delta
    ∧ questions delta `prefix_of` lines
    ∧ match o with
      | Return _ => ∃ pre, questions delta = pre ++ ["exit"] ∧ ¬ In "exit" pre
      | Throw _ => ¬ In "exit" (questions delta)
      | Pending => questions delta = lines ∧ ¬ In "exit" lines
      end.
Proof.
  revert s. induction lines as [|query rest IH]; intros s.
  - intros [= <- <-]. exists []. rewrite app_nil_r.
    split; [done|]. split; [done|]. split; [done|]. by intros [].
  - rewrite chatLoop_while_cons. cbv zeta.
    destruct (String.eqb_spec query "exit") as [->|Hquery].
    + intros [= <- <-]. exists [EvQuestion prompt "exit"]. split; [done|].
      split; [by apply prefix_cons, prefix_nil|]. exists []. split; [done|]. by intros [].
    + destruct (processQuery_asks_nothing query
                  (mkState (this s) (heap s) (world s)
                           (history s ++ [EvQuestion prompt query])))
        as (Hsettles & delta & Hdelta & Hquiet & _).
      destruct (processQuery rt query _) as [[text|e|] s1]; simpl in Hsettles, Hdelta;
        [| |done].
      * intros Hrest. apply IH in Hrest as (delta' & Hdelta' & Hprefix & Hend).
        simpl in Hdelta'.
        exists ([EvQuestion prompt query] ++ delta
                  ++ [EvConsole [LStr (LF +:+ "Response:")]; EvConsole [LStr text]]
                  ++ delta').
        split; [rewrite Hdelta', Hdelta, <- !app_assoc; done|].
        rewrite !questions_app, Hquiet. simpl.
        split; [by apply prefix_cons|].
        destruct o.
        -- destruct Hend as (pre & -> & Hpre). exists (query :: pre).
           split; [done|]. simpl. intros [H|H]; [done|tauto].
        -- simpl. intros [H|H]; [done|tauto].
        -- destruct Hend as [-> Hrest]. split; [done|].
           simpl. intros [H|H]; [done|tauto].
      * intros [= <- <-]. exists ([EvQuestion prompt query] ++ delta).
        split; [by rewrite Hdelta, <- !app_assoc|].
        rewrite questions_app, Hquiet. simpl.
        split; [by apply prefix_cons, prefix_nil|].
        intros [H|[]]; done.
Qed.

(** X14.  [chatLoop] reads the lines in order and no line after the first
    "exit".  It returns only after reading "exit"; a run that throws has not
    read "exit"; a run left waiting at the prompt has read every line, none of
    which is "exit".  A run that returns or throws closes the readline
    interface as the last thing it does. *)
Theorem chatLoop_reads_until_exit lines s :
  let r := chatLoop rt lines s in
  let asked := questions (since s (snd r)) in
  asked `prefix_of` lines
  ∧ match fst r with
    | Return _ =>
      (∃ pre, asked = pre ++ ["exit"] ∧ ¬ In "exit" pre)
      ∧ last (history (snd r)) = Some EvRlClose
    | Throw _ => ¬ In "exit" asked ∧ last (history (snd r)) = Some EvRlClose
    | Pending => asked = lines ∧ ¬ In "exit" lines
    end.
Proof.
  intros r asked. subst r asked. unfold chatLoop, try_finally.
  destruct (chatLoop_while rt lines s) as [o s1] eqn:Hloop.
  destruct (chatLoop_while_reads lines s o s1 Hloop) as (delta & Hdelta & Hprefix & Hend).
  destruct o as [[]|e|]; cbn [fst snd emit history].
  - rewrite last_snoc, Hdelta, <- app_assoc, since_mk, questions_app, app_nil_r.
    split; [done|]. by split.
  - rewrite last_snoc, Hdelta, <- app_assoc, since_mk, questions_app, app_nil_r.
    split; [done|]. by split.
  - rewrite (since_app _ _ _ Hdelta). by split.
Qed.

(** X15.  When the query of a line returns a text, [chatLoop] prints
    "Response:" after an empty line, then the text as it is, and goes on with
    the lines that follow from the state the query left. *)
Theorem chatLoop_continues query rest s text s1 :
  query ≠ "exit" →
  processQuery rt query (snd (emit (EvQuestion prompt query) s)) = (Return text, s1) →
  chatLoop rt (query :: rest) s =
  chatLoop rt rest
    (mkState (this s1) (heap s1) (world s1)
       (history s1 ++ [EvConsole [LStr (LF +:+ "Response:")]; EvConsole [LStr text]])).
Proof.
  intros Hquery Hreturn. unfold chatLoop, try_finally.
  rewrite chatLoop_while_cons. cbv zeta.
  destruct (String.eqb_spec query "exit") as [->|_]; [done|].
  simpl in Hreturn. by rewrite Hreturn.
Qed.

(** X16.  Every line other than the four letters of "exit" is a query: after
    the prompt, the first thing [chatLoop] does is to send the line to the
    Completion Client as the only message, a user message. *)
Theorem chatLoop_forwards query rest s :
  query ≠ "exit" →
  ∃ res more,
    since s (snd (chatLoop rt (query :: rest) s)) =
    EvQuestion prompt query
      :: EvCreate (mkCompletionRequest "gpt-4o" 1000 [UserMessage query]
                                       (tools_field (tools (this s)))) res
      :: more.
Proof.
  intros Hquery. unfold chatLoop, try_finally.
  destruct (chatLoop_while rt (query :: rest) s) as [o s'] eqn:Hloop.
  pose proof Hloop as Hrun. rewrite chatLoop_while_cons in Hrun. cbv zeta in Hrun.
  destruct (String.eqb_spec query "exit") as [->|_]; [done|].
  destruct (processQuery_asks_nothing query
              (mkState (this s) (heap s) (world s)
                       (history s ++ [EvQuestion prompt query])))
    as (_ & delta & Hdelta & _ & res & more & ->).
  assert (Hhistory : ∃ more', history s' = history s ++ [EvQuestion prompt query]
                                ++ EvCreate (first_request (tools (this s)) query) res
                                :: more').
  { cbn [history this] in Hdelta.
    destruct (processQuery rt query _) as [[text|e|] s1]; cbn [snd] in Hdelta.
    - destruct (chatLoop_while_reads rest _ _ _ Hrun) as (delta' & Hdelta' & _).
      cbn [history] in Hdelta'. rewrite Hdelta', Hdelta, <- !app_assoc. simpl. by eexists.
    - injection Hrun as <- <-. rewrite Hdelta, <- !app_assoc. by eexists.
    - injection Hrun as <- <-. rewrite Hdelta, <- !app_assoc. by eexists. }
  destruct Hhistory as [more' Hhistory].
  destruct o as [[]|e|]; cbn [fst snd emit history].
  - rewrite Hhistory, <- app_assoc, since_mk. simpl. by eexists _, _.
  - rewrite Hhistory, <- app_assoc, since_mk. simpl. by eexists _, _.
  - rewrite (since_app _ _ _ Hhistory). simpl. by eexists _, _.
Qed.

End Loop.

(** ** [cleanup] and [main] *)

Section Ends.

Context {W : Type} (rt : Runtime W) (mcp_close : W → (string + unit) * W).

#[local] Existing Instance M_ret.
#[local] Existing Instance M_bind.

Implicit Types (s : State W).

Lemma cleanup_run s :
  cleanup mcp_close s =
  match mcp_close (world s) with
  | (inr _, w) =>
    (Return tt, mkState (mkMCPClient (tools (this s)) None) (heap s) w (history s))
  | (inl msg, w) =>
    (Return tt,
     mkState (this s) (heap s) w
       (history s ++ [EvConsole [LStr "Failed to cleanup: "; LErr (McpError msg)]]))
  end.
Proof.
  unfold cleanup, try_catch, close. unfold mbind, M_bind.
  by destruct (mcp_close (world s)) as [[msg|[]] w].
Qed.

(** X17.  [cleanup] never throws.  When the close succeeds the transport
    handle of the session is cleared; when it fails the handle stays and the
    failure is logged.  The tool list stays in both cases. *)
Theorem cleanup_always_returns s :
  let r := cleanup mcp_close s in
  fst r = Return tt
  ∧ tools (this (snd r)) = tools (this s)
  ∧ world (snd r) = snd (mcp_close (world s))
  ∧ match fst (mcp_close (world s)) with
    | inr _ => transport (this (snd r)) = None ∧ history (snd r) = history s
    | inl msg =>
      transport (this (snd r)) = transport (this s)
      ∧ history (snd r)
        = history s ++ [EvConsole [LStr "Failed to cleanup: "; LErr (McpError msg)]]
    end.
Proof.
  intros r. subst r. rewrite cleanup_run.
  by destruct (mcp_close (world s)) as [[msg|[]] w].
Qed.

Lemma connect_then_loop path lines s :
  (connectToServer rt path;; chatLoop rt lines) s =
  match connectToServer rt path s with
  | (Return _, s1) => chatLoop rt lines s1
  | (Throw e, s1) => (Throw e, s1)
  | (Pending, s1) => (Pending, s1)
  end.
Proof. reflexivity. Qed.

Lemma main_run argv lines w :
  main rt mcp_close argv lines w =
  match argv !! 2%nat with
  | Some path =>
    match (connectToServer rt path;; chatLoop rt lines) (new_client w) with
    | (Pending, s) => (Hung, s)
    | (_, s) => (Exited 0, snd (cleanup mcp_close s))
    end
  | None => (Returned, mkState (mkMCPClient [] None) [] w [EvConsole [LStr usage]])
  end.
Proof.
  unfold main. destruct argv as [|a0 [|a1 [|path argv]]]; try done. simpl.
  destruct ((connectToServer rt path;; chatLoop rt lines) (new_client w)) as [[[]|e|] s];
    try done; rewrite cleanup_run; by destruct (mcp_close (world s)) as [[msg|[]] w'].
Qed.

(** X19.  When the connection fails, [main] still runs [cleanup] and the
    process exits with code 0: the prompt is never shown and the Completion
    Client is never called. *)
Theorem main_connection_failure argv path lines w e s1 :
  argv !! 2%nat = Some path →
  connectToServer rt path (new_client w) = (Throw e, s1) →
  let r := main rt mcp_close argv lines w in
  r = (Exited 0, snd (cleanup mcp_close s1))
  ∧ questions (history (snd r)) = []
  ∧ requests (history (snd r)) = [].
Proof.
  intros Hpath Hconnect r. subst r.
  rewrite main_run, Hpath, connect_then_loop, Hconnect. split; [done|].
  cbn [snd]. rewrite cleanup_run.
  rewrite connectToServer_run in Hconnect. cbv zeta in Hconnect.
  destruct (negb _ && negb _);
    [|destruct (mcp_listTools rt _) as [[msg|discovered] w1];
      [|destruct (adapt_all discovered)]];
    injection Hconnect as <- <- || discriminate Hconnect;
    by destruct (mcp_close _) as [[msg'|[]] w'].
Qed.

End Ends.

(** ** The added properties on scripted sessions *)

(** A text file is refused. *)
Lemma connectToServer_refuses_extension_witness :
  connectToServer runtime "server.txt" (start sum_script) =
  (Throw (PlainError "Server script must be a .js or .py file"),
   mkState (mkMCPClient [] None) [] sum_script
     [EvConsole [LStr "Failed to connect to MCP server: ";
                 LErr (PlainError "Server script must be a .js or .py file")]]).
Proof.
  apply (connectToServer_refuses_extension runtime "server.txt" (start sum_script)).
  - intros pre H.
    assert (Hends : endsWith "server.txt" ".js" = true) by (apply endsWith_spec; eauto).
    vm_compute in Hends. discriminate Hends.
  - intros pre H.
    assert (Hends : endsWith "server.txt" ".py" = true) by (apply endsWith_spec; eauto).
    vm_compute in Hends. discriminate Hends.
Defined.

(** A Python server on a platform that is not win32. *)
Lemma connectToServer_starts_server_witness :
  let s := start sum_script in
  let s' := snd (connectToServer runtime "server.py" s) in
  ∃ command rest,
    transport (this s') = Some (mkTransport command ["server.py"])
    ∧ since s s' = EvConnect (mkTransport command ["server.py"]) :: rest
    ∧ ("server.py" = "server" +:+ ".py" → command = "python3")
    ∧ ("server.py" = "server" +:+ ".js" → command = "/usr/bin/node").
Proof.
  apply (connectToServer_starts_server runtime "server.py" "server" (start sum_script)).
  left. reflexivity.
Defined.

(** The server does not answer the discovery. *)
Lemma connectToServer_failure_witness :
  let s := start unreachable_script in
  let s' := snd (connectToServer runtime "server.py" s) in
  tools (this s') = tools (this s)
  ∧ last (history s')
    = Some (EvConsole [LStr "Failed to connect to MCP server: ";
                       LErr (McpError "server unreachable")])
  ∧ requests (since s s') = []
  ∧ invocations (since s s') = [].
Proof.
  apply (connectToServer_failure runtime "server.py" (start unreachable_script)
           (McpError "server unreachable")).
  reflexivity.
Defined.

(** The server offers [add]. *)
Lemma connectToServer_success_witness :
  let s := start sum_script in
  let s' := connected sum_script in
  ∃ discovered,
    discoveries (since s s') = [inr discovered]
    ∧ map (fun spec => fn_name (tool_function spec)) (tools (this s'))
      = map mcp_name discovered
    ∧ last (history s')
      = Some (EvConsole [LStr "Connected to server with tools:";
                         LNames (map mcp_name discovered)])
    ∧ ∃ pre, "server.py" = pre +:+ ".js" ∨ "server.py" = pre +:+ ".py".
Proof.
  apply (connectToServer_success runtime "server.py" (start sum_script)
           (connected sum_script)).
  reflexivity.
Defined.

(** The query whose only tool call has a payload that is no JSON. *)
Lemma processQuery_errors_witness :
  let s := connected bad_arguments_script in
  let s' := snd (processQuery runtime "add 2 and 3" s) in
  let e := SyntaxError "{a:2" in
  (∃ req msg, e = APIError msg ∧ last (since s s') = Some (EvCreate req (inl msg)))
  ∨ (e = no_choice
     ∧ ∃ req resp, last (since s s') = Some (EvCreate req (inr resp)) ∧ choices resp = [])
  ∨ (∃ req resp c cs toolCalls toolCall,
       e = SyntaxError (arguments toolCall)
       ∧ Json.parse (arguments toolCall) = None
       ∧ exchanges (since s s') = [(req, inr resp)]
       ∧ choices resp = c :: cs
       ∧ tool_calls (message c) = Some toolCalls
       ∧ In toolCall toolCalls)
  ∨ (∃ tool args msg,
       e = McpError msg ∧ last (since s s') = Some (EvCallTool tool args (inl msg))).
Proof.
  apply (processQuery_errors runtime "add 2 and 3" (connected bad_arguments_script)).
  reflexivity.
Defined.

(** The query whose tool call the server fails. *)
Lemma failed_invocation_ends_query_witness :
  let s := connected failing_tool_script in
  let r := processQuery runtime "add 2 and 3" s in
  fst r = Throw (McpError "tool failed")
  ∧ last (since s (snd r))
    = Some (EvCallTool "add" (JObj [("a", JNum 2); ("b", JNum 3)]) (inl "tool failed"))
  ∧ length (requests (since s (snd r))) = 1%nat.
Proof.
  apply (failed_invocation_ends_query runtime "add 2 and 3"
           (connected failing_tool_script)).
  vm_compute. do 2 right. left. reflexivity.
Defined.

(** The batch of the session of the sum. *)
Lemma callTools_results_witness :
  let s := connected sum_script in
  let s' := snd (callTools runtime [add_call] 0%nat s) in
  map toolCallId [mkToolInvocationResult "call_1" five] = map call_id [add_call]
  ∧ map (fun r => inr (result r)) [mkToolInvocationResult "call_1" five]
    = answers (since s s')
  ∧ map fst (invocations (since s s')) = map call_name [add_call].
Proof.
  apply (callTools_results runtime [add_call] 0%nat (connected sum_script)).
  reflexivity.
Defined.

(** The session of the sum, then "exit". *)
Lemma chatLoop_continues_witness :
  let s := connected sum_script in
  let s1 := snd (processQuery runtime "add 2 and 3"
                   (snd (emit (EvQuestion prompt "add 2 and 3") s))) in
  chatLoop runtime ["add 2 and 3"; "exit"] s =
  chatLoop runtime ["exit"]
    (mkState (this s1) (heap s1) (world s1)
       (history s1 ++ [EvConsole [LStr (LF +:+ "Response:")];
                       EvConsole [LStr (add_trace +:+ LF +:+ "The sum is 5")]])).
Proof.
  apply (chatLoop_continues runtime "add 2 and 3" ["exit"] (connected sum_script)).
  - vm_compute. discriminate.
  - reflexivity.
Defined.

(** "Exit" with a capital letter is a query. *)
Lemma chatLoop_forwards_witness :
  let s := connected greeting_script in
  ∃ res more,
    since s (snd (chatLoop runtime ["Exit"] s)) =
    EvQuestion prompt "Exit"
      :: EvCreate (mkCompletionRequest "gpt-4o" 1000 [UserMessage "Exit"]
                                       (tools_field (tools (this s)))) res
      :: more.
Proof.
  apply (chatLoop_forwards runtime "Exit" [] (connected greeting_script)).
  vm_compute. discriminate.
Defined.

(** The server does not answer the discovery: exit code 0. *)
Lemma main_connection_failure_witness :
  let s1 := snd (connectToServer runtime "server.py" (new_client unreachable_script)) in
  let r := main runtime close_ok sample_argv ["hello"] unreachable_script in
  r = (Exited 0, snd (cleanup close_ok s1))
  ∧ questions (history (snd r)) = []
  ∧ requests (history (snd r)) = [].
Proof.
  apply (main_connection_failure runtime close_ok sample_argv "server.py" ["hello"]
           unreachable_script (McpError "server unreachable")).
  - reflexivity.
  - reflexivity.
Defined.

(** ** Queries keep nothing from one another *)

(** X21.  What a query does depends on the tool list of the session and on
    the outside world only: from two states with the same tool list in front
    of the same world, whatever their histories and the texts of earlier
    queries, [processQuery] ends the same way, after the same exchanges with
    the Completion Client and the same tool invocations, and leaves the same
    world. *)
Theorem processQuery_independent_of_past {W : Type} (rt : Runtime W) query
    (s t : State W) :
  tools (this s) = tools (this t) →
  world s = world t →
  let r := processQuery rt query s in
  let r' := processQuery rt query t in
  fst r = fst r'
  ∧ world (snd r) = world (snd r')
  ∧ exchanges (since s (snd r)) = exchanges (since t (snd r'))
  ∧ invocations (since s (snd r)) = invocations (since t (snd r')).
Proof.
  intros Htools Hworld r r'. subst r r'.
  rewrite (processQuery_run rt query s), (processQuery_run rt query t). cbv zeta.
  rewrite Htools, Hworld.
  destruct (openai_create rt _ (world t)) as [[err|resp1] w1];
    [by read_events|].
  destruct (choices resp1) as [|c1 cs1]; [by read_events|].
  destruct (tool_calls (message c1)) as [toolCalls|]; [|by read_events].
  destruct (serve rt toolCalls w1) as [[done stop] w2].
  destruct stop as [|badCall|failedCall failedArgs failure]; [|by read_events..].
  destruct (openai_create rt _ w2) as [[err|resp2] w3]; [by read_events|].
  destruct (choices resp2) as [|c2 cs2]; by read_events.
Qed.

(** Two clients with different pasts in front of the same script. *)
Lemma processQuery_independent_of_past_witness :
  let s := connected sum_script in
  let t := mkState (this s) [["an earlier text"]] (world s)
                   (history s ++ [EvConsole [LStr "an earlier line"]]) in
  let r := processQuery runtime "add 2 and 3" s in
  let r' := processQuery runtime "add 2 and 3" t in
  fst r = fst r'
  ∧ world (snd r) = world (snd r')
  ∧ exchanges (since s (snd r)) = exchanges (since t (snd r'))
  ∧ invocations (since s (snd r)) = invocations (since t (snd r')).
Proof.
  apply (processQuery_independent_of_past runtime "add 2 and 3"
           (connected sum_script)
           (mkState (this (connected sum_script)) [["an earlier text"]]
                    (world (connected sum_script))
                    (history (connected sum_script)
                       ++ [EvConsole [LStr "an earlier line"]]))).
  - reflexivity.
  - reflexivity.
Defined.

(** ** A payload that is no JSON after a tool that fails *)

(** C5, counterexample.  The batch of the first response is [add] followed
    by a request whose payload is not valid JSON; the server fails on [add],
    and [processQuery] fails with the error of the tool, not with a parse
    error. *)
Lemma earlier_failure_hides_parse_error :
  let s := connected early_failure_script in
  let r := processQuery runtime "add 2 and 3" s in
  fst (openai_create runtime (first_request (tools (this s)) "add 2 and 3") (world s))
  = answer None (Some [add_call; bad_call])
  ∧ Json.parse (arguments bad_call) = None
  ∧ fst r = Throw (McpError "tool failed")
  ∧ invocations (since s (snd r)) = [("add", JObj [("a", JNum 2); ("b", JNum 3)])]
  ∧ length (requests (since s (snd r))) = 1%nat.
Proof. vm_compute. repeat split. Qed.

(** ** An error at any turn of the session loop *)

Section Session.

Context {W : Type} (rt : Runtime W).

Implicit Types (s : State W).

(** The loop on the lines of [before] followed by others: once it has
    answered those of [before] and waits at the prompt, it goes on with the
    others from there.  A query always settles, so that the loop is left
    waiting at the prompt only. *)
Lemma chatLoop_while_app before others s :
  chatLoop_while rt (before ++ others) s =
  match chatLoop_while rt before s with
  | (Pending, s1) => chatLoop_while rt others s1
  | r => r
  end.
Proof.
  revert s. induction before as [|line before IH]; intros s; [done|].
  rewrite <- app_comm_cons, !chatLoop_while_cons. cbv zeta.
  destruct (String.eqb line "exit"); [done|].
  destruct (processQuery_asks_nothing rt line
              (mkState (this s) (heap s) (world s)
                       (history s ++ [EvQuestion prompt line])))
    as [Hsettles _].
  destruct (processQuery rt line _) as [[text|e|] s1]; [apply IH|done|].
  by destruct Hsettles.
Qed.

(** C7, as amended.  At any turn of the session loop: when [chatLoop] has
    answered the lines of [before] and waits at the prompt, and
    [processQuery] raises an error on the next line, [chatLoop] closes the
    readline interface and ends with that error; the lines read are those of
    [before] and that line, and none of the lines that follow. *)
Theorem chatLoop_error_ends_session before query rest s s1 e s2 :
  chatLoop_while rt before s = (Pending, s1) →
  query ≠ "exit" →
  processQuery rt query (snd (emit (EvQuestion prompt query) s1)) = (Throw e, s2) →
  chatLoop rt (before ++ query :: rest) s =
  (Throw e, mkState (this s2) (heap s2) (world s2) (history s2 ++ [EvRlClose]))
  ∧ questions (since s (snd (chatLoop rt (before ++ query :: rest) s)))
    = before ++ [query].
Proof.
  intros Hbefore Hquery Hthrow.
  assert (Hrun : chatLoop rt (before ++ query :: rest) s =
                 (Throw e, mkState (this s2) (heap s2) (world s2)
                                   (history s2 ++ [EvRlClose]))).
  { unfold chatLoop, try_finally.
    rewrite chatLoop_while_app, Hbefore, chatLoop_while_cons. cbv zeta.
    destruct (String.eqb_spec query "exit") as [->|_]; [done|].
    simpl in Hthrow. by rewrite Hthrow. }
  split; [exact Hrun|]. rewrite Hrun. cbn [snd].
  destruct (chatLoop_while_reads rt before s _ _ Hbefore)
    as (delta & Hdelta & _ & Hasked & _).
  destruct (processQuery_asks_nothing rt query
              (mkState (this s1) (heap s1) (world s1)
                       (history s1 ++ [EvQuestion prompt query])))
    as (_ & delta' & Hdelta' & Hquiet & _).
  simpl in Hthrow. rewrite Hthrow in Hdelta'. cbn [snd history] in Hdelta'.
  rewrite Hdelta', Hdelta, <- !app_assoc, since_mk.
  by rewrite !questions_app, Hasked, Hquiet.
Qed.

End Session.

(** The second line of a session fails: the first line has been answered,
    the third is never read. *)
Lemma chatLoop_error_ends_session_witness :
  let s := connected second_query_fails_script in
  let s1 := snd (chatLoop_while runtime ["hello"] s) in
  let s2 := snd (processQuery runtime "add 2 and 3"
                   (snd (emit (EvQuestion prompt "add 2 and 3") s1))) in
  chatLoop runtime (["hello"] ++ "add 2 and 3" :: ["more"]) s =
  (Throw (SyntaxError "{a:2"),
   mkState (this s2) (heap s2) (world s2) (history s2 ++ [EvRlClose]))
  ∧ questions (since s (snd (chatLoop runtime (["hello"] ++ "add 2 and 3" :: ["more"]) s)))
    = ["hello"] ++ ["add 2 and 3"].
Proof.
  apply (chatLoop_error_ends_session runtime ["hello"] "add 2 and 3" ["more"]
           (connected second_query_fails_script)
           (snd (chatLoop_while runtime ["hello"] (connected second_query_fails_script)))).
  - reflexivity.
  - vm_compute. discriminate.
  - reflexivity.
Defined.
